(** * IPcam.py: the MJPEG streaming core

    A shallow embedding of [src/IPcam.py]: the [StreamingOutput] object the
    encoder writes into, the [StreamingHandler.do_GET] request handler, and
    the interleaving of the encoder thread with the streaming sessions over
    the shared condition variable.

    Byte strings are [list byte]; text handed to the HTTP library is a
    [string], encoded to bytes the way the library does (latin-1).  Each
    thread is a program counter named after the source line it is about to
    execute, and one step of a thread executes that line. *)

From Stdlib.Strings Require Import Byte Ascii String.
From Stdlib Require Import DecimalString Lia.
From stdpp Require Import base option list.

Local Open Scope string_scope.
Local Open Scope list_scope.

(** ** Bytes and text *)

Abbreviation bytes := (list byte).

(** [s.encode('latin-1')] on the ASCII text the handler produces. *)
Definition encode (s : string) : bytes := list_byte_of_string s.

Definition CR : string := String "013"%char EmptyString.
Definition LF : string := String "010"%char EmptyString.
Definition CRLF : string := CR ++ LF.
Definition DQ : string := String "034"%char EmptyString.

(** [str(n)] for a non-negative [int]. *)
Definition str (n : nat) : string := NilZero.string_of_uint (Nat.to_uint n).

(** [buf.startswith(prefix)]. *)
Fixpoint startswith (buf prefix : bytes) : bool :=
  match prefix, buf with
  | [], _ => true
  | p :: prefix', b :: buf' => Byte.eqb b p && startswith buf' prefix'
  | _ :: _, [] => false
  end.

(** The JPEG start-of-image marker [b"\xff\xd8"] (line 45). *)
Definition SOI : bytes := [xff; xd8].

(** ** threading.Condition

    [Condition()] wraps a lock and a queue of waiters.  A thread blocked in
    [wait()] sits in [waiters] until a [notify_all()] removes it; it then
    has to take the lock again before [wait()] returns.  No thread of this
    program acquires the lock while it already holds it. *)

Inductive thread := Encoder | Client (r : nat).

Record Condition := mkCondition {
  owner : option thread;
  waiters : list thread
}.

Definition same_thread (a b : thread) : bool :=
  match a, b with
  | Encoder, Encoder => true
  | Client r, Client r' => Nat.eqb r r'
  | _, _ => false
  end.

Definition is_waiting (t : thread) (c : Condition) : bool :=
  existsb (same_thread t) (waiters c).

(** [with cond:] on entry; [None] while another thread holds the lock. *)
Definition acquire (t : thread) (c : Condition) : option Condition :=
  match owner c with
  | None => Some (mkCondition (Some t) (waiters c))
  | Some _ => None
  end.

(** [with cond:] on exit. *)
Definition release (c : Condition) : Condition :=
  mkCondition None (waiters c).

(** First half of [cond.wait()]: enqueue and give up the lock. *)
Definition wait_enter (t : thread) (c : Condition) : Condition :=
  mkCondition None (waiters c ++ [t]).

(** Second half of [cond.wait()]: once notified, take the lock again. *)
Definition wait_return (t : thread) (c : Condition) : option Condition :=
  if is_waiting t c then None else acquire t c.

(** [cond.notify_all()]: every waiter is released. *)
Definition notify_all (c : Condition) : Condition :=
  mkCondition (owner c) [].

(** ** StreamingOutput (lines 25-54) *)

Record StreamingOutput := mkStreamingOutput {
  frame : option bytes;
  condition : Condition
}.

(** [StreamingOutput.__init__] (lines 33-35). *)
Definition StreamingOutput_init : StreamingOutput :=
  mkStreamingOutput None (mkCondition None []).

Definition set_frame (f : bytes) (o : StreamingOutput) : StreamingOutput :=
  mkStreamingOutput (Some f) (condition o).

Definition set_condition (c : Condition) (o : StreamingOutput) : StreamingOutput :=
  mkStreamingOutput (frame o) c.

(** ** http.server.BaseHTTPRequestHandler

    The part of the library's handler object that [do_GET] touches, for a
    request whose request line carries an HTTP/1.x version: response and
    header lines are collected in [_headers_buffer] and reach the socket when
    [end_headers()] flushes them; [wfile] is unbuffered, so each
    [wfile.write] is one [sendall] on the socket.  [wfile] records the bytes
    the socket has accepted; a write on a connection the peer has dropped
    raises. *)

Inductive HTTPStatus := OK | NOT_FOUND | SERVICE_UNAVAILABLE.

Definition status_value (st : HTTPStatus) : nat :=
  match st with OK => 200 | NOT_FOUND => 404 | SERVICE_UNAVAILABLE => 503 end.

Definition status_phrase (st : HTTPStatus) : string :=
  match st with
  | OK => "OK"
  | NOT_FOUND => "Not Found"
  | SERVICE_UNAVAILABLE => "Service Unavailable"
  end.

Definition status_description (st : HTTPStatus) : string :=
  match st with
  | OK => "Request fulfilled, document follows"
  | NOT_FOUND => "Nothing matches the given URI"
  | SERVICE_UNAVAILABLE => "The server cannot process the request due to a high load"
  end.

Record Handler := mkHandler {
  path : string;
  (** [self.version_string()] and [self.date_time_string()] *)
  version_string : string;
  date_time_string : string;
  (** [self.error_message_format % {code, message, explain}], UTF-8 encoded *)
  error_page : nat -> string -> string -> bytes;
  headers_buffer : list bytes;
  wfile : bytes;
  connected : bool
}.

Definition set_headers_buffer (b : list bytes) (h : Handler) : Handler :=
  mkHandler (path h) (version_string h) (date_time_string h) (error_page h)
            b (wfile h) (connected h).

Definition set_wfile (out : bytes) (h : Handler) : Handler :=
  mkHandler (path h) (version_string h) (date_time_string h) (error_page h)
            (headers_buffer h) out (connected h).

Definition hang_up (h : Handler) : Handler :=
  mkHandler (path h) (version_string h) (date_time_string h) (error_page h)
            (headers_buffer h) (wfile h) false.

(** A handler as the server creates it for a fresh connection. *)
Definition new_handler (p ver date : string) (page : nat -> string -> string -> bytes)
  : Handler := mkHandler p ver date page [] [] true.

(** *** Handler methods: state passing with exceptions *)

Inductive exn := BrokenPipeError.

Inductive outcome (A : Type) :=
| Done (a : A)
| Raise (e : exn).
Arguments Done {A} a.
Arguments Raise {A} e.

Definition H (A : Type) : Type := Handler -> outcome A * Handler.

Definition ret {A} (a : A) : H A := fun h => (Done a, h).

Definition bind {A B} (m : H A) (k : A -> H B) : H B :=
  fun h => match m h with
           | (Done a, h') => k a h'
           | (Raise e, h') => (Raise e, h')
           end.

Declare Scope handler_scope.
Delimit Scope handler_scope with handler.
Notation "x <- m ;; k" := (bind m (fun x => k))
  (at level 100, m at next level, right associativity) : handler_scope.
Notation "m ;; k" := (bind m (fun _ => k))
  (at level 100, right associativity) : handler_scope.
Local Open Scope handler_scope.

Definition protocol_version : string := "HTTP/1.0".

(** [self.wfile.write(data)] *)
Definition wfile_write (data : bytes) : H unit :=
  fun h => if connected h
           then (Done tt, set_wfile (wfile h ++ data) h)
           else (Raise BrokenPipeError, h).

Definition buffer_line (line : string) : H unit :=
  fun h => (Done tt, set_headers_buffer (headers_buffer h ++ [encode line]) h).

(** [send_response_only]: ["%s %d %s\r\n" % (protocol_version, code, message)] *)
Definition send_response_only (code : HTTPStatus) (message : option string) : H unit :=
  let message := default (status_phrase code) message in
  buffer_line (protocol_version ++ " " ++ str (status_value code) ++ " " ++ message ++ CRLF).

(** [send_header]: ["%s: %s\r\n" % (keyword, value)] *)
Definition send_header (keyword value : string) : H unit :=
  buffer_line (keyword ++ ": " ++ value ++ CRLF).

(** [send_response]: status line, then the Server and Date headers. *)
Definition send_response (code : HTTPStatus) (message : option string) : H unit :=
  send_response_only code message ;;
  (fun h => send_header "Server" (version_string h) h) ;;
  (fun h => send_header "Date" (date_time_string h) h).

(** [flush_headers]: one write of the joined buffer, then the buffer is reset. *)
Definition flush_headers : H unit :=
  (fun h => wfile_write (concat (headers_buffer h)) h) ;;
  (fun h => (Done tt, set_headers_buffer [] h)).

(** [end_headers]: the blank line, then the flush. *)
Definition end_headers : H unit :=
  buffer_line CRLF ;; flush_headers.

Definition error_content_type : string := "text/html;charset=utf-8".

(** [send_error(code, message)] for a GET request and a status of 200 or
    above that carries a body. *)
Definition send_error (code : HTTPStatus) (message : option string) : H unit :=
  let message := default (status_phrase code) message in
  let explain := status_description code in
  send_response code (Some message) ;;
  send_header "Connection" "close" ;;
  body <- (fun h => (Done (error_page h (status_value code) message explain), h)) ;;
  send_header "Content-Type" error_content_type ;;
  send_header "Content-Length" (str (length body)) ;;
  end_headers ;;
  match body with
  | [] => ret tt
  | _ :: _ => wfile_write body
  end.

(** ** StreamingHandler (lines 60-115) *)

(** [StreamingHandler.PAGE] (lines 63-73). *)
Definition PAGE : bytes := encode (
  "<html>" ++ LF ++
  "<head>" ++ LF ++
  "<title>Raspberry Pi Camera</title>" ++ LF ++
  "</head>" ++ LF ++
  "<body>" ++ LF ++
  "<h1>Raspberry Pi Camera Stream</h1>" ++ LF ++
  "<img src=" ++ DQ ++ "/stream.mjpg" ++ DQ ++ " width=" ++ DQ ++ "640" ++ DQ ++
    " height=" ++ DQ ++ "480" ++ DQ ++ " />" ++ LF ++
  "</body>" ++ LF ++
  "</html>" ++ LF).

(** How control leaves the straight-line part of [do_GET]: the method
    returns, or it falls into the [while True] loop of line 95. *)
Inductive control := Returns | Streams.

(** [do_GET] up to line 95; [output] is the module global of line 57. *)
Definition do_GET (output : option StreamingOutput) : H control :=
  fun h =>
  (if String.eqb (path h) "/" then
     send_response OK None ;;
     send_header "Content-Type" "text/html" ;;
     send_header "Content-Length" (str (length PAGE)) ;;
     end_headers ;;
     wfile_write PAGE ;;
     ret Returns
   else if String.eqb (path h) "/stream.mjpg" then
     match output with
     | None =>
         send_error SERVICE_UNAVAILABLE (Some "Camera not initialised") ;;
         end_headers ;;
         ret Returns
     | Some _ =>
         send_response OK None ;;
         send_header "Age" (str 0) ;;
         send_header "Cache-Control" "no-cache, private" ;;
         send_header "Pragma" "no-cache" ;;
         send_header "Content-Type" "multipart/x-mixed-replace; boundary=FRAME" ;;
         end_headers ;;
         ret Streams
     end
   else
     send_error NOT_FOUND None ;;
     end_headers ;;
     ret Returns) h.

(** The six statements of one multipart part (lines 102-107). *)
Inductive part_line := P102 | P103 | P104 | P105 | P106 | P107.

Definition part_stmt (l : part_line) (frame : bytes) : H unit :=
  match l with
  | P102 => wfile_write (encode ("--FRAME" ++ CRLF))
  | P103 => send_header "Content-Type" "image/jpeg"
  | P104 => send_header "Content-Length" (str (length frame))
  | P105 => end_headers
  | P106 => wfile_write frame
  | P107 => wfile_write (encode CRLF)
  end.

(** Lines 102-107 run in sequence. *)
Definition write_part (frame : bytes) : H unit :=
  part_stmt P102 frame ;; part_stmt P103 frame ;; part_stmt P104 frame ;;
  part_stmt P105 frame ;; part_stmt P106 frame ;; part_stmt P107 frame.

(** The part the client is meant to see for [frame]. *)
Definition multipart_part (frame : bytes) : bytes :=
  encode ("--FRAME" ++ CRLF) ++
  encode ("Content-Type: image/jpeg" ++ CRLF) ++
  encode ("Content-Length: " ++ str (length frame) ++ CRLF) ++
  encode CRLF ++
  frame ++
  encode CRLF.

(** ** The running process

    After [main] has built the [StreamingOutput] (line 160) and started the
    encoder and the server, the process is the encoder thread calling
    [output.write] and the sessions running [do_GET].  A thread's program
    counter names the line it executes next. *)

(** The encoder thread inside [StreamingOutput.write] (lines 45-49). *)
Inductive epc :=
| Idle (returned : option nat)  (* outside [write]; what the last call returned *)
| W45 (buf : bytes)             (* if buf.startswith(b"\xff\xd8"): *)
| W46 (buf : bytes)             (* with self.condition:  -- entry *)
| W47 (buf : bytes)             (* self.frame = buf *)
| W48 (buf : bytes)             (* self.condition.notify_all() *)
| W48x (buf : bytes)            (* with self.condition:  -- exit *)
| W49 (buf : bytes).            (* return len(buf) *)

(** A session inside [do_GET] (lines 75-110); the local [frame] of the loop
    travels with the program counter once line 98 has assigned it. *)
Inductive rpc :=
| G76                                  (* do_GET up to line 95 *)
| G96                                  (* with output.condition:  -- entry *)
| G97                                  (* output.condition.wait() -- call *)
| G97w                                 (* blocked inside wait() *)
| G98                                  (* frame = output.frame *)
| G98x (frame : option bytes)          (* with output.condition:  -- exit *)
| G99 (frame : option bytes)           (* if frame is None: continue *)
| GPart (l : part_line) (frame : bytes)  (* lines 102-107 *)
| Returned                             (* do_GET returned *)
| Raised.                              (* an exception left do_GET *)

Record Session := mkSession {
  handler : Handler;
  pc : rpc
}.

(** [published] is a history variable: the buffers line 47 has assigned to
    [self.frame], oldest first.  No step reads it. *)
Record World := mkWorld {
  output : StreamingOutput;
  encoder : epc;
  sessions : list Session;
  published : list bytes
}.

Definition set_encoder (e : epc) (w : World) : World :=
  mkWorld (output w) e (sessions w) (published w).

Definition set_output (o : StreamingOutput) (w : World) : World :=
  mkWorld o (encoder w) (sessions w) (published w).

Definition set_session (r : nat) (s : Session) (w : World) : World :=
  mkWorld (output w) (encoder w) (<[r := s]> (sessions w)) (published w).

Definition set_pc (r : nat) (s : Session) (p : rpc) (w : World) : World :=
  set_session r (mkSession (handler s) p) w.

Definition lock (w : World) : Condition := condition (output w).

Definition set_lock (c : Condition) (w : World) : World :=
  set_output (set_condition c (output w)) w.

(** Line 47, with the history variable updated alongside. *)
Definition assign_frame (buf : bytes) (w : World) : World :=
  mkWorld (set_frame buf (output w)) (encoder w) (sessions w) (published w ++ [buf]).

(** One line of [StreamingOutput.write] (lines 45-49). *)
Definition write_step (w : World) : option World :=
  match encoder w with
  | Idle _ => None
  | W45 buf => Some (set_encoder (if startswith buf SOI then W46 buf else W49 buf) w)
  | W46 buf => c ← acquire Encoder (lock w); Some (set_encoder (W47 buf) (set_lock c w))
  | W47 buf => Some (set_encoder (W48 buf) (assign_frame buf w))
  | W48 buf => Some (set_encoder (W48x buf) (set_lock (notify_all (lock w)) w))
  | W48x buf => Some (set_encoder (W49 buf) (set_lock (release (lock w)) w))
  | W49 buf => Some (set_encoder (Idle (Some (length buf))) w)
  end.

Definition next_part_line (l : part_line) (frame : bytes) : rpc :=
  match l with
  | P102 => GPart P103 frame
  | P103 => GPart P104 frame
  | P104 => GPart P105 frame
  | P105 => GPart P106 frame
  | P106 => GPart P107 frame
  | P107 => G96
  end.

(** One line of [do_GET] for session [r], whose state is [s]. *)
Definition do_GET_step (r : nat) (s : Session) (w : World) : option World :=
  match pc s with
  | G76 =>
      let '(res, h) := do_GET (Some (output w)) (handler s) in
      Some (set_session r (mkSession h match res with
                                       | Done Streams => G96
                                       | Done Returns => Returned
                                       | Raise _ => Raised
                                       end) w)
  | G96 => c ← acquire (Client r) (lock w); Some (set_pc r s G97 (set_lock c w))
  | G97 => Some (set_pc r s G97w (set_lock (wait_enter (Client r) (lock w)) w))
  | G97w => c ← wait_return (Client r) (lock w); Some (set_pc r s G98 (set_lock c w))
  | G98 => Some (set_pc r s (G98x (frame (output w))) w)
  | G98x fo => Some (set_pc r s (G99 fo) (set_lock (release (lock w)) w))
  | G99 None => Some (set_pc r s G96 w)
  | G99 (Some f) => Some (set_pc r s (GPart P102 f) w)
  | GPart l f =>
      let '(res, h) := part_stmt l f (handler s) in
      Some (set_session r (mkSession h match res with
                                       | Done _ => next_part_line l f
                                       | Raise _ => Raised
                                       end) w)
  | Returned | Raised => None
  end.

(** What the scheduler and the environment can do next. *)
Inductive event :=
| Ingest (buf : bytes)    (* the encoder calls output.write(buf) *)
| Enc                     (* the encoder thread runs one line *)
| Cli (r : nat)           (* session r runs one line *)
| Disconnect (r : nat).   (* the peer of session r drops the connection *)

Definition exec (e : event) (w : World) : option World :=
  match e with
  | Ingest buf =>
      match encoder w with
      | Idle _ => Some (set_encoder (W45 buf) w)
      | _ => None
      end
  | Enc => write_step w
  | Cli r => s ← sessions w !! r; do_GET_step r s w
  | Disconnect r =>
      s ← sessions w !! r;
      Some (set_session r (mkSession (hang_up (handler s)) (pc s)) w)
  end.

Fixpoint run (t : list event) (w : World) : option World :=
  match t with
  | [] => Some w
  | e :: t' => w' ← exec e w; run t' w'
  end.

(** The process once [main] reaches [serve_forever]: a fresh
    [StreamingOutput], the encoder outside [write], and one session per
    accepted connection, each about to enter [do_GET]. *)
Definition boot (hs : list Handler) : World :=
  mkWorld StreamingOutput_init (Idle None) (map (fun h => mkSession h G76) hs) [].

(** [output.write(buf)] run from call to return with no other thread
    scheduled in between. *)
Definition write (buf : bytes) (w : World) : option (World * nat) :=
  w' ← run (Ingest buf :: repeat Enc (if startswith buf SOI then 6 else 2)) w;
  match encoder w' with
  | Idle (Some n) => Some (w', n)
  | _ => None
  end.



(** The lines a thread executes while it holds the lock, and the lines that
    touch the socket. *)
Definition encoder_holds (p : epc) : bool :=
  match p with
  | W47 _ | W48 _ | W48x _ => true
  | _ => false
  end.

Definition session_holds (p : rpc) : bool :=
  match p with
  | G97 | G98 | G98x _ => true
  | _ => false
  end.

(** ** Invariants of the running process *)

(** Whether thread [t] is at a line inside its [with] block. *)
Definition holds (w : World) (t : thread) : bool :=
  match t with
  | Encoder => encoder_holds (encoder w)
  | Client r =>
      match sessions w !! r with
      | Some s => session_holds (pc s)
      | None => false
      end
  end.

(** The encoder has assigned the frame of the current call. *)
Definition encoder_assigned (p : epc) : bool :=
  match p with
  | W48 _ | W48x _ => true
  | _ => false
  end.

(** What holds of session [r] at each line of the loop. *)
Definition session_ok (w : World) (r : nat) (s : Session) : Prop :=
  match pc s with
  | G97w => is_waiting (Client r) (lock w) = true \/ published w <> []
  | G98 => published w <> []
  | G98x fo => fo = frame (output w) /\ published w <> []
  | G99 fo => exists f, fo = Some f /\ f ∈ published w
  | GPart _ f => f ∈ published w
  | _ => True
  end.

(** The lines at which the header buffer of the session is empty. *)
Definition buffer_flushed (p : rpc) : bool :=
  match p with
  | G76 | Returned | Raised | GPart P104 _ | GPart P105 _ => false
  | _ => true
  end.

Record consistent (w : World) : Prop := mkConsistent {
  frame_is_latest : frame (output w) = last (published w);
  lock_discipline : forall t, holds w t = true <-> owner (lock w) = Some t;
  assigned_published : encoder_assigned (encoder w) = true -> published w <> [];
  sessions_ok : forall r s, sessions w !! r = Some s -> session_ok w r s;
  buffers_flushed : forall r s, sessions w !! r = Some s ->
    buffer_flushed (pc s) = true -> headers_buffer (handler s) = []
}.

(** Session [r] called [wait()] when the history was [p0] and the socket
    had accepted [out0]: until something is published after that, the
    session is blocked inside the call and has sent nothing more. *)
Definition since_wait (p0 : list bytes) (out0 : bytes) (r : nat) (w : World) : Prop :=
  exists ext, published w = p0 ++ ext /\
    (ext = [] ->
       encoder_assigned (encoder w) = false /\
       exists s, sessions w !! r = Some s /\ pc s = G97w /\
         is_waiting (Client r) (lock w) = true /\ wfile (handler s) = out0).

Definition is_ingest (e : event) : bool :=
  match e with
  | Ingest _ => true
  | _ => false
  end.

(** Where a call [write(buf)] that started with history [p0] stands. *)
Definition in_call (p0 : list bytes) (buf : bytes) (w : World) : Prop :=
  match encoder w with
  | Idle ret =>
      ret = Some (length buf) /\
      published w = p0 ++ (if startswith buf SOI then [buf] else [])
  | W45 b => b = buf /\ published w = p0
  | W46 b | W47 b => b = buf /\ startswith buf SOI = true /\ published w = p0
  | W48 b | W48x b => b = buf /\ startswith buf SOI = true /\ published w = p0 ++ [buf]
  | W49 b =>
      b = buf /\
      published w = p0 ++ (if startswith buf SOI then [buf] else [])
  end.



(** ** Sample runs *)

Definition viewer : Handler :=
  new_handler "/stream.mjpg" "BaseHTTP/0.6 Python/3.11.2" "Tue, 03 Nov 2026 12:00:00 GMT"
              (fun code message _ => encode (str code ++ " " ++ message)).

Definition jpegA : bytes := [xff; xd8; x41].
Definition jpegB : bytes := [xff; xd8; x42].

(** The encoder runs one whole call of [write] on a JPEG chunk. *)
Definition publish (buf : bytes) : list event := Ingest buf :: repeat Enc 6.

(** Session [r] answers the request and takes the lock (line 97 is next). *)
Definition reach_wait (r : nat) : list event := [Cli r; Cli r].

(** Session [r], notified, returns from [wait()] and reads the frame. *)
Definition wake (r : nat) : list event := [Cli r; Cli r].

(** Session [r] leaves the [with] block, tests the frame and sends the part. *)
Definition send_part (r : nat) : list event := repeat (Cli r) 8.

(** The world a schedule leads to (the starting world if it cannot run),
    and session [r] in a world. *)
Definition after (t : list event) (w : World) : World := default w (run t w).

Definition session_at (r : nat) (w : World) : Session :=
  default (mkSession viewer Raised) (sessions w !! r).

(** One viewer has the lock and is about to call [wait()]. *)
Definition waiting_world : World := after (reach_wait 0) (boot [viewer]).

(** It has waited through one publish and has just read the frame. *)
Definition woken_world : World :=
  after (Cli 0 :: publish jpegA ++ wake 0) waiting_world.

(** It has waited through two publishes before getting the lock back, and
    has sent its first part. *)
Definition raced_world : World :=
  after (Cli 0 :: publish jpegA ++ publish jpegB ++ wake 0 ++ send_part 0) waiting_world.

(** It is about to send the part for the frame it read. *)
Definition sending_world : World :=
  after (Cli 0 :: publish jpegA ++ wake 0 ++ [Cli 0; Cli 0]) waiting_world.












(** ** main (lines 141-178) and create_ssl_context (lines 135-138)

    [main] is a sequence of calls into the camera, logging, TLS and server
    libraries around the one assignment to the global [output].  Each call
    is recorded; whether a library call raises, and which files exist, is
    given by the environment.  [args] is what [parse_args()] returned. *)

Record Namespace := mkNamespace {
  host : string;
  port : Z;
  cert : string;
  key : string
}.

Inductive call :=
| basicConfig                                  (* line 144 *)
| Picamera2_new                                (* line 153 *)
| create_preview_configuration                 (* lines 154-156 *)
| configure                                    (* line 157 *)
| MJPEGEncoder_new                             (* line 162, first argument *)
| FileOutput_new                               (* line 162, second argument *)
| start_recording                              (* line 162 *)
| HTTPServer_new (host : string) (port : Z)    (* line 165 *)
| SSLContext_new                               (* line 136 *)
| load_cert_chain (certfile keyfile : string)  (* line 137 *)
| wrap_socket                                  (* line 168 *)
| info_starting (scheme host : string) (port : Z)  (* line 172 *)
| serve_forever                                (* line 173 *)
| info_shutting_down                           (* line 175 *)
| stop_recording                               (* line 176 *)
| close                                        (* line 177 *)
| server_close.                                (* line 178 *)

Inductive error :=
| FileNotFoundError (message : string)
| LibraryError (c : call).

Record Env := mkEnv {
  (** [str(Path(s))] and [Path.exists] *)
  path_str : string -> string;
  path_exists : string -> bool;
  (** the library calls that raise (logging calls do not) *)
  raises : call -> bool
}.

Record Process := mkProcess {
  calls : list call;                       (* what has been called, oldest first *)
  global_output : option StreamingOutput   (* the module global of line 57 *)
}.

Definition at_import : Process := mkProcess [] None.

Inductive completion (A : Type) :=
| Returned_ (a : A)
| Raised_ (e : error).
Arguments Returned_ {A} a.
Arguments Raised_ {A} e.

Definition Main (A : Type) : Type := Process -> completion A * Process.

Definition unit_P {A} (a : A) : Main A := fun st => (Returned_ a, st).

Definition bind_P {A B} (m : Main A) (k : A -> Main B) : Main B :=
  fun st => match m st with
            | (Returned_ a, st') => k a st'
            | (Raised_ e, st') => (Raised_ e, st')
            end.

Definition raise {A} (e : error) : Main A := fun st => (Raised_ e, st).

(** [try: body finally: cleanup] *)
Definition try_finally {A} (body : Main A) (cleanup : Main unit) : Main A :=
  fun st => match body st with
            | (r, st1) =>
                match cleanup st1 with
                | (Returned_ _, st2) => (r, st2)
                | (Raised_ e, st2) => (Raised_ e, st2)
                end
            end.

Declare Scope process_scope.
Delimit Scope process_scope with process.
Notation "x <- m ;; k" := (bind_P m (fun x => k))
  (at level 100, m at next level, right associativity) : process_scope.
Notation "m ;; k" := (bind_P m (fun _ => k))
  (at level 100, right associativity) : process_scope.

Definition is_logging (c : call) : bool :=
  match c with
  | basicConfig | info_starting _ _ _ | info_shutting_down => true
  | _ => false
  end.

(** A library call: recorded, then it returns or raises. *)
Definition invoke (env : Env) (c : call) : Main unit :=
  fun st =>
    let st' := mkProcess (calls st ++ [c]) (global_output st) in
    if negb (is_logging c) && raises env c
    then (Raised_ (LibraryError c), st')
    else (Returned_ tt, st').

(** [global output; output = StreamingOutput()] (lines 159-160) *)
Definition assign_output : Main unit :=
  fun st => (Returned_ tt, mkProcess (calls st) (Some StreamingOutput_init)).

(** [create_ssl_context] (lines 135-138) *)
Definition create_ssl_context (env : Env) (cert_path key_path : string) : Main unit :=
  (invoke env SSLContext_new ;;
   invoke env (load_cert_chain cert_path key_path))%process.

(** [main] (lines 141-178), from line 144 on *)
Definition main (env : Env) (args : Namespace) : Main unit :=
  (invoke env basicConfig ;;
   let cert_path := path_str env (cert args) in
   let key_path := path_str env (key args) in
   (if negb (path_exists env cert_path)
    then raise (FileNotFoundError ("TLS certificate not found: " ++ cert_path))
    else unit_P tt) ;;
   (if negb (path_exists env key_path)
    then raise (FileNotFoundError ("TLS private key not found: " ++ key_path))
    else unit_P tt) ;;
   invoke env Picamera2_new ;;
   invoke env create_preview_configuration ;;
   invoke env configure ;;
   assign_output ;;
   invoke env MJPEGEncoder_new ;;
   invoke env FileOutput_new ;;
   invoke env start_recording ;;
   invoke env (HTTPServer_new (host args) (port args)) ;;
   create_ssl_context env cert_path key_path ;;
   invoke env wrap_socket ;;
   try_finally
     (invoke env (info_starting "https" (host args) (port args)) ;;
      invoke env serve_forever)
     (invoke env info_shutting_down ;;
      invoke env stop_recording ;;
      invoke env close ;;
      invoke env server_close))%process.

(** The calls of [main] in program order: bringing the camera and the
    server up, serving, and the [finally] block. *)
Definition startup (args : Namespace) (env : Env) : list call :=
  [basicConfig; Picamera2_new; create_preview_configuration; configure;
   MJPEGEncoder_new; FileOutput_new; start_recording;
   HTTPServer_new (host args) (port args);
   SSLContext_new;
   load_cert_chain (path_str env (cert args)) (path_str env (key args));
   wrap_socket].

Definition serving (args : Namespace) : list call :=
  [info_starting "https" (host args) (port args); serve_forever].

Definition shutdown : list call :=
  [info_shutting_down; stop_recording; close; server_close].

(** The command line defaults of [parse_args] (lines 120-131), and sample
    environments: everything in place; the key file missing; [serve_forever]
    interrupted; the TLS wrapping of the socket failing. *)
Definition default_args : Namespace := mkNamespace "0.0.0.0" 8443 "cert.pem" "key.pem".

Definition env_all_well : Env := mkEnv id (fun _ => true) (fun _ => false).

Definition env_no_key : Env :=
  mkEnv id (fun p => String.eqb p "cert.pem") (fun _ => false).

Definition env_interrupted : Env :=
  mkEnv id (fun _ => true)
        (fun c => match c with serve_forever => true | _ => false end).


(** ** More invariants of the running process *)

(** Every chunk in the history, and the chunk the encoder is storing,
    passed the test of line 45. *)
Definition all_marked (w : World) : Prop :=
  Forall (fun f => startswith f SOI = true) (published w) /\
  match encoder w with
  | W46 b | W47 b | W48 b | W48x b => startswith b SOI = true
  | _ => True
  end.









(** The thread an event belongs to. *)
Definition by_thread (t : thread) (e : event) : bool :=
  match e, t with
  | Enc, Encoder => true
  | Cli r, Client r' => Nat.eqb r r'
  | _, _ => false
  end.

(** A viewer arrives after a frame has been published, calls [wait()], and
    its peer hangs up while it waits. *)
Definition late_viewer_world : World :=
  after (publish jpegA ++ reach_wait 0) (boot [viewer]).

Definition late_viewer_waiting : World :=
  after [Cli 0; Disconnect 0; Ingest [x00]; Enc; Enc] late_viewer_world.



(** * Properties *)

Example str_1234 : str 1234 = "1234".
Proof. reflexivity. Qed.

Example str_0 : str 0 = "0".
Proof. reflexivity. Qed.

Example PAGE_length : length PAGE = 168.
Proof. reflexivity. Qed.

(** ** The handler methods *)

Lemma encode_app a b : encode (a ++ b) = encode a ++ encode b.
Proof.
  unfold encode, list_byte_of_string.
  induction a as [|c a IH]; simpl; [done|]. f_equal. exact IH.
Qed.

Section HandlerMethods.
Variables (p ver date : string) (page : nat -> string -> string -> bytes).
Variables (buf : list bytes) (out : bytes).

Lemma wfile_write_eq data c :
  wfile_write data (mkHandler p ver date page buf out c) =
    if c then (Done tt, mkHandler p ver date page buf (out ++ data) true)
    else (Raise BrokenPipeError, mkHandler p ver date page buf out false).
Proof. by destruct c. Qed.

Lemma send_header_eq c k v :
  send_header k v (mkHandler p ver date page buf out c) =
    (Done tt, mkHandler p ver date page (buf ++ [encode (k ++ ": " ++ v ++ CRLF)]) out c).
Proof. reflexivity. Qed.

Lemma send_response_eq c code msg :
  send_response code msg (mkHandler p ver date page buf out c) =
    (Done tt, mkHandler p ver date page
       (buf ++ [encode (protocol_version ++ " " ++ str (status_value code) ++ " " ++
                        default (status_phrase code) msg ++ CRLF);
                encode ("Server: " ++ ver ++ CRLF);
                encode ("Date: " ++ date ++ CRLF)]) out c).
Proof.
  unfold send_response, send_response_only, send_header, buffer_line, bind,
    set_headers_buffer; cbn.
  by rewrite <- !app_assoc.
Qed.

Lemma end_headers_eq c :
  end_headers (mkHandler p ver date page buf out c) =
    if c then (Done tt, mkHandler p ver date page [] (out ++ concat buf ++ encode CRLF) true)
    else (Raise BrokenPipeError, mkHandler p ver date page (buf ++ [encode CRLF]) out false).
Proof.
  unfold end_headers, flush_headers, buffer_line, wfile_write, bind,
    set_headers_buffer, set_wfile; cbn.
  destruct c; [|done].
  simpl. by rewrite concat_app; simpl; rewrite ?app_nil_r.
Qed.

End HandlerMethods.

Ltac hstep :=
  first [ rewrite send_response_eq | rewrite send_header_eq | rewrite end_headers_eq
        | rewrite wfile_write_eq ]; cbv beta iota.

Ltac hrun := unfold ret; repeat first [ hstep | unfold bind at 1 ].

Ltac same_bytes :=
  rewrite ?concat_app; cbn [concat];
  rewrite ?encode_app; rewrite <- ?app_assoc; rewrite ?app_nil_r; reflexivity.

Lemma send_error_eq p ver date page buf out code msg :
  let message := default (status_phrase code) msg in
  let body := page (status_value code) message (status_description code) in
  send_error code msg (mkHandler p ver date page buf out true) =
    (Done tt, mkHandler p ver date page []
       (out ++ concat buf ++
        encode (protocol_version ++ " " ++ str (status_value code) ++ " " ++ message ++ CRLF ++
                "Server: " ++ ver ++ CRLF ++
                "Date: " ++ date ++ CRLF ++
                "Connection: close" ++ CRLF ++
                "Content-Type: text/html;charset=utf-8" ++ CRLF ++
                "Content-Length: " ++ str (length body) ++ CRLF ++ CRLF) ++ body) true).
Proof.
  intros message body. unfold send_error. fold message.
  unfold bind at 1. hstep. unfold bind at 1. hstep. unfold bind at 1. cbv beta iota.
  cbn [error_page]. fold body. hrun.
  destruct body; hrun; do 2 f_equal; same_bytes.
Qed.



Lemma do_GET_stream_active ver date page o :
  do_GET (Some o) (new_handler "/stream.mjpg" ver date page) =
    (Done Streams, mkHandler "/stream.mjpg" ver date page []
       (encode ("HTTP/1.0 200 OK" ++ CRLF ++
                "Server: " ++ ver ++ CRLF ++
                "Date: " ++ date ++ CRLF ++
                "Age: 0" ++ CRLF ++
                "Cache-Control: no-cache, private" ++ CRLF ++
                "Pragma: no-cache" ++ CRLF ++
                "Content-Type: multipart/x-mixed-replace; boundary=FRAME" ++ CRLF ++
                CRLF)) true).
Proof.
  unfold do_GET, new_handler. cbn [path].
  change (String.eqb "/stream.mjpg" "/") with false.
  change (String.eqb "/stream.mjpg" "/stream.mjpg") with true. cbv beta iota.
  hrun. do 2 f_equal. same_bytes.
Qed.


Lemma write_part_eq p ver date page out f :
  write_part f (mkHandler p ver date page [] out true) =
    (Done tt, mkHandler p ver date page [] (out ++ multipart_part f) true).
Proof.
  unfold write_part, part_stmt, multipart_part. hrun. do 2 f_equal. same_bytes.
Qed.

(** ** The running process: basic facts *)

Lemma is_waiting_enqueue t t' o ws :
  is_waiting t (mkCondition o (ws ++ [t'])) =
    is_waiting t (mkCondition o ws) || same_thread t t'.
Proof.
  unfold is_waiting; simpl. rewrite existsb_app. simpl. by rewrite orb_false_r.
Qed.

Lemma do_GET_streams_flushed o h h' :
  do_GET o h = (Done Streams, h') -> headers_buffer h' = [].
Proof.
  destruct h as [p ver date page buf out c]. unfold do_GET. cbn [path].
  destruct (String.eqb p "/").
  { destruct c; hrun; congruence. }
  destruct (String.eqb p "/stream.mjpg"); [destruct o|].
  - destruct c; hrun; intros [= <-]; done.
  - destruct c.
    + unfold bind at 1. rewrite send_error_eq. cbv beta iota zeta. hrun. congruence.
    + unfold send_error. hrun. congruence.
  - destruct c.
    + unfold bind at 1. rewrite send_error_eq. cbv beta iota zeta. hrun. congruence.
    + unfold send_error. hrun. congruence.
Qed.

Lemma part_stmt_buffer l f h res h' :
  part_stmt l f h = (res, h') ->
  match l with
  | P102 | P106 | P107 => headers_buffer h' = headers_buffer h
  | P105 => res = Done tt -> headers_buffer h' = []
  | _ => True
  end.
Proof.
  destruct h as [p ver date page buf out c].
  destruct l; cbn [part_stmt]; try done; hrun; destruct c; intros [= <- <-]; done.
Qed.

(** *** Preservation of the invariant *)

Lemma boot_consistent hs : consistent (boot hs).
Proof.
  split; simpl; try done.
  - intros [|r]; simpl; [done|].
    rewrite list_lookup_fmap. destruct (hs !! r); simpl; done.
  - intros r s. rewrite list_lookup_fmap. destruct (hs !! r); intros [= <-]. done.
  - intros r s. rewrite list_lookup_fmap. destruct (hs !! r); intros [= <-]. done.
Qed.

Lemma session_ok_transport w w' r s :
  published w' = published w ->
  frame (output w') = frame (output w) ->
  (is_waiting (Client r) (lock w) = true -> is_waiting (Client r) (lock w') = true) ->
  session_ok w r s -> session_ok w' r s.
Proof.
  unfold session_ok. intros -> -> Hw. destruct (pc s); try done.
  intros [?|?]; auto.
Qed.

Lemma write_step_consistent w w' :
  consistent w -> write_step w = Some w' -> consistent w'.
Proof.
  intros C He. destruct C as [Hf Hl Ha Hs Hb].
  unfold write_step in He. destruct (encoder w) as [n|buf|buf|buf|buf|buf|buf] eqn:En.
  - done.
  - (* line 45 *)
    injection He as <-. split; simpl; try done.
    + intros t. rewrite <- Hl. destruct t; simpl; [|done]. rewrite En. by destruct (startswith _ _).
    + by destruct (startswith _ _).
  - (* line 46: acquire *)
    unfold acquire in He. destruct (owner (lock w)) eqn:Ho; [done|]. simpl in He.
    injection He as <-. split; simpl; try done.
    intros t. destruct t as [|r]; simpl; [done|].
    split; [|done]. intros Hh. apply (Hl (Client r)) in Hh. congruence.
  - (* line 47: assign *)
    injection He as <-.
    assert (Ho : owner (lock w) = Some Encoder) by (apply Hl; simpl; by rewrite En).
    split; simpl.
    + by rewrite last_snoc.
    + intros t. rewrite <- Hl. destruct t; simpl; [by rewrite En|done].
    + intros _. by destruct (published w).
    + intros r s Hr. specialize (Hs r s Hr). unfold session_ok in *.
      destruct (pc s) eqn:Hp; simpl; try done.
      * destruct Hs; [by left|right]. by destruct (published w).
      * by destruct (published w).
      * assert (holds w (Client r) = true) as Hh by (simpl; by rewrite Hr, Hp).
        apply Hl in Hh. congruence.
      * destruct Hs as (f & -> & Hin). exists f. split; [done|]. apply elem_of_app. by left.
      * apply elem_of_app. by left.
    + done.
  - (* line 48: notify_all *)
    injection He as <-. split; simpl; try done.
    + intros t. rewrite <- Hl. destruct t; simpl; [by rewrite En|done].
    + intros r s Hr. specialize (Hs r s Hr). unfold session_ok in *.
      destruct (pc s) eqn:Hp; simpl; try done.
      right. by apply Ha.
  - (* line 48: release *)
    injection He as <-.
    assert (Ho : owner (lock w) = Some Encoder) by (apply Hl; simpl; by rewrite En).
    split; simpl; try done.
    intros t. split; [|done]. destruct t as [|r]; simpl; [done|].
    intros Hh. apply (Hl (Client r)) in Hh. congruence.
  - (* line 49: return *)
    injection He as <-. split; simpl; try done.
    intros t. rewrite <- Hl. destruct t; simpl; [by rewrite En|done].
Qed.

Lemma session_step_consistent w w' r s h p c :
  consistent w -> sessions w !! r = Some s ->
  output w' = set_condition c (output w) ->
  encoder w' = encoder w ->
  sessions w' = <[r := mkSession h p]> (sessions w) ->
  published w' = published w ->
  (forall t, match t with
             | Client r' => if decide (r = r') then session_holds p else holds w t
             | Encoder => holds w t
             end = true <-> owner c = Some t) ->
  (forall r', r' <> r ->
     is_waiting (Client r') (lock w) = true -> is_waiting (Client r') c = true) ->
  session_ok w' r (mkSession h p) ->
  (buffer_flushed p = true -> headers_buffer h = []) ->
  consistent w'.
Proof.
  intros [Hf Hl Ha Hs Hb] Hr Ho He Hss Hp Hlock Hwait Hnew Hbuf.
  assert (Hlook : forall r', sessions w' !! r' =
            if decide (r = r') then Some (mkSession h p) else sessions w !! r').
  { intros r'. rewrite Hss. destruct (decide (r = r')) as [<-|Hne].
    - apply list_lookup_insert_eq. by apply lookup_lt_Some in Hr.
    - by apply list_lookup_insert_ne. }
  split.
  - by rewrite Ho, Hp.
  - intros t. unfold lock. rewrite Ho. simpl. rewrite <- Hlock.
    destruct t as [|r']; simpl; [by rewrite He|].
    rewrite Hlook. by destruct (decide (r = r')).
  - by rewrite He, Hp.
  - intros r' s'. rewrite Hlook. destruct (decide (r = r')) as [<-|Hne].
    + by intros [= <-].
    + intros Hr'. apply (session_ok_transport w); [done|by rewrite Ho|..].
      * unfold lock at 2. rewrite Ho. simpl. by apply Hwait.
      * by apply Hs.
  - intros r' s'. rewrite Hlook. destruct (decide (r = r')) as [<-|Hne].
    + by intros [= <-].
    + by apply Hb.
Qed.

Lemma set_condition_lock w : set_condition (lock w) (output w) = output w.
Proof. by destruct w as [[]]. Qed.

Ltac session_step w r s c :=
  eapply (session_step_consistent w _ r s _ _ c);
  [ eassumption | eassumption | simpl; by rewrite ?set_condition_lock
  | reflexivity | reflexivity | reflexivity | | | | ].

Lemma do_GET_step_consistent w w' r s :
  consistent w -> sessions w !! r = Some s -> do_GET_step r s w = Some w' ->
  consistent w'.
Proof.
  intros C Hr He. pose proof C as [Hf Hl Ha Hs Hb].
  pose proof (Hs r s Hr) as Hsr. pose proof (Hb r s Hr) as Hbr.
  unfold session_ok in Hsr.
  assert (Hh : holds w (Client r) = session_holds (pc s)) by (simpl; by rewrite Hr).
  assert (Hother : forall p, session_holds p = session_holds (pc s) ->
    forall t, match t with
              | Client r' => if decide (r = r') then session_holds p else holds w t
              | Encoder => holds w t
              end = true <-> owner (lock w) = Some t).
  { intros p Hp t. rewrite <- Hl. destruct t as [|r']; [done|].
    destruct (decide (r = r')) as [<-|]; [|done]. by rewrite Hh, Hp. }
  assert (Htake : owner (lock w) = None ->
    forall p, session_holds p = true ->
    forall t, match t with
              | Client r' => if decide (r = r') then session_holds p else holds w t
              | Encoder => holds w t
              end = true <-> Some (Client r) = Some t).
  { intros Ho p Hp t. destruct t as [|r'].
    - split; [|done]. intros Hx. apply Hl in Hx. congruence.
    - destruct (decide (r = r')) as [<-|Hne]; [done|].
      split; [|congruence]. intros Hx. apply Hl in Hx. congruence. }
  assert (Hgive : owner (lock w) = Some (Client r) ->
    forall p, session_holds p = false ->
    forall t, match t with
              | Client r' => if decide (r = r') then session_holds p else holds w t
              | Encoder => holds w t
              end = true <-> None = Some t).
  { intros Ho p Hp t. split; [|done]. destruct t as [|r'].
    - intros Hx. apply Hl in Hx. congruence.
    - destruct (decide (r = r')) as [<-|Hne]; [congruence|].
      intros Hx. apply Hl in Hx. congruence. }
  unfold do_GET_step in He.
  destruct (pc s) as [| | | | |fo|fo|l f| |] eqn:Hpc.
  - (* do_GET up to line 95 *)
    destruct (do_GET _ _) as [res h] eqn:Hg. injection He as <-.
    session_step w r s (lock w).
    + apply Hother. by destruct res as [[]|].
    + done.
    + unfold session_ok; simpl. by destruct res as [[]|].
    + destruct res as [[]|]; simpl; try done. intros _. by eapply do_GET_streams_flushed.
  - (* line 96: acquire *)
    unfold acquire in He. destruct (owner (lock w)) eqn:Ho; [done|]. simpl in He.
    injection He as <-.
    session_step w r s (mkCondition (Some (Client r)) (waiters (lock w))).
    + by apply Htake.
    + done.
    + done.
    + intros _. by apply Hbr.
  - (* line 97: wait *)
    injection He as <-.
    assert (Ho : owner (lock w) = Some (Client r)) by (apply Hl; by rewrite Hh).
    session_step w r s (wait_enter (Client r) (lock w)).
    + by apply Hgive.
    + intros r' _. unfold wait_enter. rewrite is_waiting_enqueue.
      unfold is_waiting; simpl. by intros ->.
    + unfold session_ok; simpl. left. unfold is_waiting; simpl.
      rewrite existsb_app. simpl. rewrite Nat.eqb_refl. by rewrite orb_true_r.
    + intros _. by apply Hbr.
  - (* inside wait: notified, take the lock again *)
    unfold wait_return in He. destruct (is_waiting _ _) eqn:Hw; [done|].
    unfold acquire in He. destruct (owner (lock w)) eqn:Ho; [done|]. simpl in He.
    injection He as <-.
    session_step w r s (mkCondition (Some (Client r)) (waiters (lock w))).
    + by apply Htake.
    + done.
    + unfold session_ok; simpl. destruct Hsr; [congruence|done].
    + intros _. by apply Hbr.
  - (* line 98 *)
    injection He as <-.
    session_step w r s (lock w).
    + by apply Hother.
    + done.
    + unfold session_ok; simpl. by split.
    + intros _. by apply Hbr.
  - (* line 98: release *)
    injection He as <-. destruct Hsr as [-> Hne].
    assert (Ho : owner (lock w) = Some (Client r)) by (apply Hl; by rewrite Hh).
    session_step w r s (release (lock w)).
    + by apply Hgive.
    + done.
    + unfold session_ok; simpl. rewrite Hf.
      destruct (last (published w)) as [f|] eqn:Hlast.
      * exists f. split; [done|]. apply last_Some in Hlast as [l' ->].
        apply elem_of_app. right. by apply list_elem_of_singleton.
      * apply last_None in Hlast. done.
    + intros _. by apply Hbr.
  - (* line 99 *)
    destruct Hsr as (f & -> & Hin). injection He as <-.
    session_step w r s (lock w).
    + by apply Hother.
    + done.
    + done.
    + intros _. by apply Hbr.
  - (* lines 102-107 *)
    destruct (part_stmt l f (handler s)) as [res h] eqn:Hps. injection He as <-.
    pose proof (part_stmt_buffer _ _ _ _ _ Hps) as Hpb.
    session_step w r s (lock w).
    + apply Hother. destruct res; [by destruct l|done].
    + done.
    + unfold session_ok; simpl. destruct res; [by destruct l|done].
    + destruct res as [[]|]; [|done].
      destruct l; simpl; try done; intros _; try (rewrite Hpb; by apply Hbr); by apply Hpb.
  - done.
  - done.
Qed.

Lemma exec_consistent e w w' : consistent w -> exec e w = Some w' -> consistent w'.
Proof.
  intros C He. destruct e as [buf| |r|r]; simpl in He.
  - destruct (encoder w) eqn:En; [|done..]. injection He as <-.
    destruct C as [Hf Hl Ha Hs Hb]. split; simpl; try done.
    intros t. rewrite <- Hl. destruct t; simpl; [by rewrite En|done].
  - by eapply write_step_consistent.
  - destruct (sessions w !! r) as [s|] eqn:Hr; [|done]. by eapply do_GET_step_consistent.
  - destruct (sessions w !! r) as [s|] eqn:Hr; [|done]. simpl in He. injection He as <-.
    pose proof C as [Hf Hl Ha Hs Hb].
    session_step w r s (lock w).
    + intros t. rewrite <- Hl. destruct t as [|r']; [done|].
      destruct (decide (r = r')) as [<-|]; [|done]. simpl. by rewrite Hr.
    + done.
    + apply (Hs r s Hr).
    + apply (Hb r s Hr).
Qed.

Lemma run_consistent t w w' : consistent w -> run t w = Some w' -> consistent w'.
Proof.
  revert w. induction t as [|e t IH]; intros w C; simpl.
  - by intros [= <-].
  - destruct (exec e w) as [w1|] eqn:He; [|done]. simpl.
    apply IH. by eapply exec_consistent.
Qed.

Lemma reachable_consistent hs t w : run t (boot hs) = Some w -> consistent w.
Proof. apply run_consistent, boot_consistent. Qed.

(** *** The history only grows *)

Lemma write_step_published w w' :
  write_step w = Some w' ->
  published w' = published w \/
  exists buf, encoder w = W47 buf /\ published w' = published w ++ [buf].
Proof.
  unfold write_step. destruct (encoder w) as [n|buf|buf|buf|buf|buf|buf]; try done;
    try (intros [= <-]; by left).
  - destruct (acquire _ _); [|done]. intros [= <-]. by left.
  - intros [= <-]. right. by exists buf.
Qed.

Lemma do_GET_step_shared r s w w' :
  do_GET_step r s w = Some w' ->
  published w' = published w /\ encoder w' = encoder w /\
  frame (output w') = frame (output w) /\
  exists p h, sessions w' = <[r := mkSession h p]> (sessions w).
Proof.
  unfold do_GET_step.
  destruct (pc s) as [| | | | |fo|[f|]|l f| |]; try done;
    try (intros [= <-]; simpl; eauto 10).
  - destruct (do_GET _ _). intros [= <-]; simpl; eauto 10.
  - destruct (acquire _ _); [|done]. intros [= <-]; simpl; eauto 10.
  - destruct (wait_return _ _); [|done]. intros [= <-]; simpl; eauto 10.
  - destruct (part_stmt _ _ _). intros [= <-]; simpl; eauto 10.
Qed.

Lemma exec_published_grows e w w' :
  exec e w = Some w' -> exists more, published w' = published w ++ more.
Proof.
  destruct e as [buf| |r|r]; simpl.
  - destruct (encoder w); try done. intros [= <-]. exists []. by rewrite app_nil_r.
  - intros [->|(buf & _ & ->)]%write_step_published; [exists []|by exists [buf]].
    by rewrite app_nil_r.
  - destruct (sessions w !! r) as [s|]; [|done]. simpl.
    intros (-> & _)%do_GET_step_shared. exists []. by rewrite app_nil_r.
  - destruct (sessions w !! r) as [s|]; [|done]. simpl.
    intros [= <-]. exists []. by rewrite app_nil_r.
Qed.

Lemma run_published_grows t w w' :
  run t w = Some w' -> exists more, published w' = published w ++ more.
Proof.
  revert w. induction t as [|e t IH]; intros w; simpl.
  - intros [= <-]. exists []. by rewrite app_nil_r.
  - destruct (exec e w) as [w1|] eqn:He; [|done]. simpl. intros Hrun.
    apply exec_published_grows in He as [m1 H1]. apply IH in Hrun as [m2 H2].
    exists (m1 ++ m2). by rewrite H2, H1, app_assoc.
Qed.

(** *** A session inside [wait()] leaves it only after a publish *)

Lemma do_GET_step_waiters r r' s w w' :
  do_GET_step r s w = Some w' ->
  is_waiting (Client r') (lock w) = true -> is_waiting (Client r') (lock w') = true.
Proof.
  unfold do_GET_step.
  destruct (pc s) as [| | | | |fo|[f|]|l f| |]; try done;
    try (intros [= <-]; simpl; by rewrite ?set_condition_lock).
  - destruct (do_GET _ _). by intros [= <-].
  - unfold acquire. destruct (owner _); [done|]. by intros [= <-].
  - intros [= <-]. unfold lock; simpl. unfold wait_enter.
    rewrite is_waiting_enqueue. unfold is_waiting; simpl. by intros ->.
  - unfold wait_return, acquire. destruct (is_waiting _ _); [done|].
    destruct (owner _); [done|]. by intros [= <-].
  - destruct (part_stmt _ _ _). by intros [= <-].
Qed.

Lemma exec_since_wait p0 out0 r e w w' :
  since_wait p0 out0 r w -> exec e w = Some w' -> since_wait p0 out0 r w'.
Proof.
  intros (ext & Hp & Hk) He.
  destruct ext as [|x ext]; cycle 1.
  { destruct (exec_published_grows _ _ _ He) as [more Hm].
    exists ((x :: ext) ++ more). split; [|done]. by rewrite Hm, Hp, app_assoc. }
  destruct (Hk eq_refl) as (Hna & s & Hr & Hpc & Hw & Hout). clear Hk.
  rewrite app_nil_r in Hp. subst p0.
  destruct e as [buf| |r0|r0]; simpl in He.
  - destruct (encoder w); try done. injection He as <-.
    exists []. split; [by rewrite app_nil_r|]. intros _. split; [done|]. by exists s.
  - unfold write_step in He.
    destruct (encoder w) as [n|buf|buf|buf|buf|buf|buf] eqn:En; try done.
    + injection He as <-. exists []. split; [by rewrite app_nil_r|]. intros _.
      split; [by destruct (startswith _ _)|]. by exists s.
    + destruct (acquire _ _) as [c|] eqn:Ha; [|done]. injection He as <-.
      exists []. split; [by rewrite app_nil_r|]. intros _. split; [done|].
      exists s. split; [done|]. split; [done|].
      unfold acquire in Ha. destruct (owner _); [done|]. injection Ha as <-.
      split; [exact Hw|done].
    + injection He as <-. by exists [buf].
    + injection He as <-. exists []. split; [by rewrite app_nil_r|]. intros _.
      split; [done|]. by exists s.
  - destruct (sessions w !! r0) as [s0|] eqn:Hr0; [|done]. simpl in He.
    pose proof (do_GET_step_shared _ _ _ _ He) as (Hpub & Henc & _ & p & h & Hss).
    exists []. split; [by rewrite Hpub, app_nil_r|]. intros _. split; [by rewrite Henc|].
    destruct (decide (r0 = r)) as [->|Hne].
    + assert (s0 = s) as -> by congruence.
      unfold do_GET_step in He; rewrite Hpc in He.
      unfold wait_return in He. by rewrite Hw in He.
    + exists s. split; [rewrite Hss; by rewrite list_lookup_insert_ne|].
      split; [done|]. split; [|done]. by eapply do_GET_step_waiters.
  - destruct (sessions w !! r0) as [s0|] eqn:Hr0; [|done]. simpl in He.
    injection He as <-. exists []. split; [by rewrite app_nil_r|]. intros _.
    split; [done|].
    destruct (decide (r0 = r)) as [->|Hne].
    + assert (s0 = s) as -> by congruence. eexists. split.
      { simpl. apply list_lookup_insert_eq. by apply lookup_lt_Some in Hr. }
      done.
    + exists s. split; [simpl; by rewrite list_lookup_insert_ne|done].
Qed.

Lemma run_since_wait p0 out0 r t w w' :
  since_wait p0 out0 r w -> run t w = Some w' -> since_wait p0 out0 r w'.
Proof.
  revert w. induction t as [|e t IH]; intros w Hs; simpl.
  - by intros [= <-].
  - destruct (exec e w) as [w1|] eqn:He; [|done]. simpl.
    apply IH. by eapply exec_since_wait.
Qed.

Lemma wait_call_since_wait w w1 r s :
  consistent w -> sessions w !! r = Some s -> pc s = G97 ->
  exec (Cli r) w = Some w1 ->
  since_wait (published w) (wfile (handler s)) r w1.
Proof.
  intros C Hr Hpc He. simpl in He. rewrite Hr in He. simpl in He.
  unfold do_GET_step in He. rewrite Hpc in He. injection He as <-.
  exists []. split; [by rewrite app_nil_r|]. intros _.
  assert (Ho : owner (lock w) = Some (Client r)).
  { apply (lock_discipline w C). simpl. by rewrite Hr, Hpc. }
  split.
  - simpl. destruct (encoder w) eqn:En; try done.
    + assert (owner (lock w) = Some Encoder); [|congruence].
      apply (lock_discipline w C). simpl. by rewrite En.
    + assert (owner (lock w) = Some Encoder); [|congruence].
      apply (lock_discipline w C). simpl. by rewrite En.
  - eexists. split.
    { simpl. apply list_lookup_insert_eq. by apply lookup_lt_Some in Hr. }
    simpl. split; [done|]. split; [|done].
    unfold is_waiting; simpl. rewrite existsb_app. simpl.
    rewrite Nat.eqb_refl. by rewrite orb_true_r.
Qed.

(** The frame read on line 98 after a wait that began with history [p0]. *)
Lemma wait_returns_latest p0 out0 r w s fo :
  consistent w -> since_wait p0 out0 r w ->
  sessions w !! r = Some s -> pc s = G98x fo ->
  exists newer f, published w = p0 ++ newer ++ [f] /\ fo = Some f.
Proof.
  intros C (ext & Hp & Hk) Hr Hpc.
  pose proof (sessions_ok w C r s Hr) as Hok. unfold session_ok in Hok.
  rewrite Hpc in Hok. destruct Hok as [-> Hne].
  rewrite (frame_is_latest w C).
  destruct ext as [|x ext] using rev_ind.
  - destruct (Hk eq_refl) as (_ & s' & Hr' & Hs' & _).
    assert (s' = s) as -> by congruence. congruence.
  - exists ext, x. split; [done|]. by rewrite Hp, app_assoc, last_snoc.
Qed.

(** *** One call of [write], interleaved with anything else *)

Lemma run_app t1 t2 w : run (t1 ++ t2) w = run t1 w ≫= run t2.
Proof.
  revert w. induction t1 as [|e t1 IH]; intros w; simpl; [done|].
  destruct (exec e w); simpl; [apply IH|done].
Qed.

Lemma ingest_in_call buf w w' :
  exec (Ingest buf) w = Some w' -> in_call (published w) buf w'.
Proof.
  simpl. destruct (encoder w); try done. intros [= <-]. by split.
Qed.

Lemma exec_in_call p0 buf e w w' :
  in_call p0 buf w -> is_ingest e = false -> exec e w = Some w' -> in_call p0 buf w'.
Proof.
  unfold in_call. intros Hc Hi He. destruct e as [b| |r|r]; [done|..]; simpl in He.
  - unfold write_step in He.
    destruct (encoder w) as [n|b|b|b|b|b|b]; try done.
    + destruct Hc as [-> Hp]. injection He as <-. simpl.
      destruct (startswith buf SOI) eqn:Hs; simpl; rewrite ?app_nil_r; auto.
    + destruct (acquire _ _); [|done]. injection He as <-. done.
    + destruct Hc as (-> & Hs & Hp). injection He as <-. simpl. by rewrite Hp.
    + injection He as <-. done.
    + destruct Hc as (-> & Hs & Hp). injection He as <-. simpl. by rewrite Hs.
    + destruct Hc as (-> & Hp). injection He as <-. done.
  - destruct (sessions w !! r) as [s|]; [|done]. simpl in He.
    apply do_GET_step_shared in He as (-> & -> & _). done.
  - destruct (sessions w !! r) as [s|]; [|done]. injection He as <-. done.
Qed.

Lemma run_in_call p0 buf t w w' :
  in_call p0 buf w -> forallb (fun e => negb (is_ingest e)) t = true ->
  run t w = Some w' -> in_call p0 buf w'.
Proof.
  revert w. induction t as [|e t IH]; intros w Hc Ht; simpl.
  - by intros [= <-].
  - simpl in Ht. apply andb_true_iff in Ht as [He Ht].
    destruct (exec e w) as [w1|] eqn:Hx; [|done]. simpl.
    apply IH; [|done]. eapply exec_in_call; [done| |done]. by destruct (is_ingest e).
Qed.

(** With the lock free, the encoder finishes the call on its own. *)
Lemma write_completes buf w :
  encoder w = W45 buf -> owner (lock w) = None ->
  run (repeat Enc (if startswith buf SOI then 6 else 2)) w =
    Some (if startswith buf SOI
          then mkWorld (mkStreamingOutput (Some buf) (mkCondition None []))
                       (Idle (Some (length buf))) (sessions w) (published w ++ [buf])
          else set_encoder (Idle (Some (length buf))) w).
Proof.
  destruct w as [[fr [ow ws]] en ss pub]. simpl. intros -> ->.
  destruct (startswith buf SOI) eqn:Hs; simpl; unfold write_step; simpl; by rewrite Hs.
Qed.

Lemma write_eq buf n w :
  encoder w = Idle n -> owner (lock w) = None ->
  write buf w =
    Some (if startswith buf SOI
          then mkWorld (mkStreamingOutput (Some buf) (mkCondition None []))
                       (Idle (Some (length buf))) (sessions w) (published w ++ [buf])
          else set_encoder (Idle (Some (length buf))) w, length buf).
Proof.
  intros En Ho. unfold write.
  change (run (Ingest buf :: ?t) w) with (exec (Ingest buf) w ≫= run t).
  simpl exec. rewrite En. simpl mbind.
  rewrite write_completes by done. simpl.
  by destruct (startswith buf SOI).
Qed.

(** Whoever holds the lock gives it up within two of its own lines. *)
Lemma lock_is_released w r :
  consistent w -> owner (lock w) = Some (Client r) ->
  exists t w', run t w = Some w' /\ owner (lock w') = None /\
    encoder w' = encoder w /\ published w' = published w /\
    forallb (fun e => negb (is_ingest e)) t = true.
Proof.
  intros C Ho. apply (lock_discipline w C) in Ho. simpl in Ho.
  destruct (sessions w !! r) as [s|] eqn:Hr; [|done].
  destruct s as [h [| | | | |fo|fo|l f| |]]; try done.
  - exists [Cli r]. eexists. simpl. rewrite Hr. simpl. split; [done|]. done.
  - exists [Cli r; Cli r]. eexists. simpl. rewrite Hr. simpl.
    rewrite list_lookup_insert_eq by (by apply lookup_lt_Some in Hr).
    simpl. split; [done|]. done.
  - exists [Cli r]. eexists. simpl. rewrite Hr. simpl. split; [done|]. done.
Qed.

Lemma write_can_return hs t0 w n buf :
  run t0 (boot hs) = Some w -> encoder w = Idle n ->
  exists t w', run (Ingest buf :: t) w = Some w' /\
    forallb (fun e => negb (is_ingest e)) t = true /\
    encoder w' = Idle (Some (length buf)).
Proof.
  intros Hrun En. apply reachable_consistent in Hrun as C.
  assert (Hi : exec (Ingest buf) w = Some (set_encoder (W45 buf) w))
    by (simpl; by rewrite En).
  pose proof (exec_consistent _ _ _ C Hi) as C1.
  set (w1 := set_encoder (W45 buf) w) in *.
  assert (Hfin : forall w2, encoder w2 = W45 buf -> owner (lock w2) = None ->
    exists w', run (repeat Enc (if startswith buf SOI then 6 else 2)) w2 = Some w' /\
      encoder w' = Idle (Some (length buf))).
  { intros w2 E2 O2. eexists. split; [by apply write_completes|].
    by destruct (startswith buf SOI). }
  assert (Hrep : forall k, forallb (fun e => negb (is_ingest e)) (repeat Enc k) = true).
  { induction k; simpl; auto. }
  destruct (owner (lock w1)) as [[|r]|] eqn:Ho.
  - apply (lock_discipline w1 C1) in Ho. done.
  - destruct (lock_is_released w1 r C1 Ho) as (t & w2 & Hr2 & O2 & E2 & _ & Ht).
    destruct (Hfin w2 E2 O2) as (w' & Hr' & E').
    exists (t ++ repeat Enc (if startswith buf SOI then 6 else 2)), w'.
    split; [|split; [|done]].
    + change (run (Ingest buf :: ?t) w) with (exec (Ingest buf) w ≫= run t).
      rewrite Hi. simpl mbind. rewrite run_app, Hr2. done.
    + rewrite forallb_app, Ht. apply Hrep.
  - destruct (Hfin w1 eq_refl Ho) as (w' & Hr' & E').
    exists (repeat Enc (if startswith buf SOI then 6 else 2)), w'.
    split; [|split; [apply Hrep|done]].
    change (run (Ingest buf :: ?t) w) with (exec (Ingest buf) w ≫= run t).
    by rewrite Hi.
Qed.

(** *** What a step depends on *)








(** ** The claims about waiting and waking *)

Lemma exec_Cli r w s :
  sessions w !! r = Some s -> exec (Cli r) w = do_GET_step r s w.
Proof. intros Hr. simpl. by rewrite Hr. Qed.

Lemma lookup_set_pc r s p w s0 :
  sessions w !! r = Some s0 ->
  sessions (set_pc r s p w) !! r = Some (mkSession (handler s) p).
Proof. intros Hr. simpl. apply list_lookup_insert_eq. by apply lookup_lt_Some in Hr. Qed.

(** C1: a session that has called [wait()] gets, when the call returns, the
    frame of the latest publish made since then: the history at that moment
    is the history at the call followed by at least one publish, and the
    frame read on line 98 is the last of them, never [None] and never one
    that was published before the call.  That frame is the one lines 102-107
    then send.  Every publish releases all the sessions that are waiting. *)
Theorem wait_never_stale hs t0 w0 r s0 t w s fo :
  run t0 (boot hs) = Some w0 ->
  sessions w0 !! r = Some s0 -> pc s0 = G97 ->
  run (Cli r :: t) w0 = Some w ->
  sessions w !! r = Some s -> pc s = G98x fo ->
  (exists newer f,
     published w = published w0 ++ newer ++ [f] /\ fo = Some f /\
     exists w2 s2, run [Cli r; Cli r] w = Some w2 /\
       sessions w2 !! r = Some s2 /\ pc s2 = GPart P102 f) /\
  (forall a b buf, encoder a = W48 buf -> exec Enc a = Some b ->
     waiters (lock b) = [] /\ frame (output a) = frame (output b)).
Proof.
  intros Hrun0 Hr0 Hpc0 Hrun Hr Hpc. split.
  - apply reachable_consistent in Hrun0 as C0.
    change (run (Cli r :: t) w0) with (exec (Cli r) w0 ≫= run t) in Hrun.
    destruct (exec (Cli r) w0) as [w1|] eqn:He; [|done]. simpl in Hrun.
    pose proof (wait_call_since_wait _ _ _ _ C0 Hr0 Hpc0 He) as Hs1.
    pose proof (run_since_wait _ _ _ _ _ _ Hs1 Hrun) as Hs.
    pose proof (run_consistent _ _ _ (exec_consistent _ _ _ C0 He) Hrun) as C.
    destruct (wait_returns_latest _ _ _ _ _ _ C Hs Hr Hpc) as (newer & f & Hp & ->).
    exists newer, f. split; [done|]. split; [done|].
    destruct s as [h p]. simpl in Hpc. subst p.
    eexists _, _. split.
    + simpl. rewrite Hr. simpl. rewrite list_lookup_insert_eq
        by (by apply lookup_lt_Some in Hr). simpl. done.
    + simpl. rewrite list_lookup_insert_eq; [done|].
      rewrite length_insert. by apply lookup_lt_Some in Hr.
  - intros a b buf En. simpl. unfold write_step. rewrite En. by intros [= <-].
Qed.

Lemma wait_never_stale_witness :
  run (reach_wait 0) (boot [viewer]) = Some waiting_world /\
  sessions waiting_world !! 0 = Some (session_at 0 waiting_world) /\
  pc (session_at 0 waiting_world) = G97 /\
  run (Cli 0 :: publish jpegA ++ wake 0) waiting_world = Some woken_world /\
  sessions woken_world !! 0 = Some (session_at 0 woken_world) /\
  pc (session_at 0 woken_world) = G98x (Some jpegA) /\
  (exists newer f,
     published woken_world = published waiting_world ++ newer ++ [f] /\
     Some jpegA = Some f /\
     exists w2 s2, run [Cli 0; Cli 0] woken_world = Some w2 /\
       sessions w2 !! 0 = Some s2 /\ pc s2 = GPart P102 f) /\
  (forall a b buf, encoder a = W48 buf -> exec Enc a = Some b ->
     waiters (lock b) = [] /\ frame (output a) = frame (output b)).
Proof.
  do 6 (split; [vm_compute; reflexivity|]).
  apply (wait_never_stale [viewer] (reach_wait 0) waiting_world 0
           (session_at 0 waiting_world) (publish jpegA ++ wake 0) woken_world
           (session_at 0 woken_world) (Some jpegA)); vm_compute; reflexivity.
Defined.

Lemma first_delivery_helper hs t0 w0 r s0 t w :
  run t0 (boot hs) = Some w0 ->
  sessions w0 !! r = Some s0 -> pc s0 = G97 ->
  run (Cli r :: t) w0 = Some w ->
  consistent w /\ since_wait (published w0) (wfile (handler s0)) r w.
Proof.
  intros Hrun0 Hr0 Hpc0 Hrun.
  apply reachable_consistent in Hrun0 as C0.
  change (run (Cli r :: t) w0) with (exec (Cli r) w0 ≫= run t) in Hrun.
  destruct (exec (Cli r) w0) as [w1|] eqn:He; [|done]. simpl in Hrun.
  split.
  - by eapply run_consistent, Hrun; eapply exec_consistent.
  - eapply run_since_wait, Hrun. by eapply wait_call_since_wait.
Qed.

(** C2, amended: a session that calls [wait()] before anything has been
    published stays blocked in the call, and sends nothing, for as long as
    nothing is published; when the call has returned, the frame read on line
    98 is not [None] but the latest publish so far, and whatever frame the
    session tests on line 99 or sends on lines 102-107 is a published one. *)
Theorem first_frame_is_a_published_one hs t0 w0 r s0 t w s :
  run t0 (boot hs) = Some w0 -> published w0 = [] ->
  sessions w0 !! r = Some s0 -> pc s0 = G97 ->
  run (Cli r :: t) w0 = Some w -> sessions w !! r = Some s ->
  (published w = [] -> pc s = G97w /\ wfile (handler s) = wfile (handler s0)) /\
  (forall fo, pc s = G98x fo ->
     exists earlier f, published w = earlier ++ [f] /\ fo = Some f) /\
  (forall fo, pc s = G99 fo -> exists f, fo = Some f /\ f ∈ published w) /\
  (forall l f, pc s = GPart l f -> f ∈ published w).
Proof.
  intros Hrun0 Hp0 Hr0 Hpc0 Hrun Hr.
  destruct (first_delivery_helper _ _ _ _ _ _ _ Hrun0 Hr0 Hpc0 Hrun) as [C Hs].
  rewrite Hp0 in Hs. split; [|split; [|split]].
  - destruct Hs as (ext & Hp & Hk). intros Hnil. rewrite Hnil in Hp. simpl in Hp.
    destruct (Hk (eq_sym Hp)) as (_ & s' & Hr' & Hpc & _ & Hout).
    split; congruence.
  - intros fo Hpc.
    destruct (wait_returns_latest _ _ _ _ _ _ C Hs Hr Hpc) as (newer & f & Hp & ->).
    by exists newer, f.
  - intros fo Hpc. pose proof (sessions_ok w C r s Hr) as Hok.
    unfold session_ok in Hok. by rewrite Hpc in Hok.
  - intros l f Hpc. pose proof (sessions_ok w C r s Hr) as Hok.
    unfold session_ok in Hok. by rewrite Hpc in Hok.
Qed.

Lemma first_frame_is_a_published_one_witness :
  run (reach_wait 0) (boot [viewer]) = Some waiting_world /\
  published waiting_world = [] /\
  sessions waiting_world !! 0 = Some (session_at 0 waiting_world) /\
  pc (session_at 0 waiting_world) = G97 /\
  run (Cli 0 :: publish jpegA ++ wake 0) waiting_world = Some woken_world /\
  sessions woken_world !! 0 = Some (session_at 0 woken_world) /\
  (published woken_world = [] ->
     pc (session_at 0 woken_world) = G97w /\
     wfile (handler (session_at 0 woken_world)) =
       wfile (handler (session_at 0 waiting_world))) /\
  (forall fo, pc (session_at 0 woken_world) = G98x fo ->
     exists earlier f, published woken_world = earlier ++ [f] /\ fo = Some f) /\
  (forall fo, pc (session_at 0 woken_world) = G99 fo ->
     exists f, fo = Some f /\ f ∈ published woken_world) /\
  (forall l f, pc (session_at 0 woken_world) = GPart l f -> f ∈ published woken_world).
Proof.
  do 6 (split; [vm_compute; reflexivity|]).
  apply (first_frame_is_a_published_one [viewer] (reach_wait 0) waiting_world 0
           (session_at 0 waiting_world) (publish jpegA ++ wake 0) woken_world
           (session_at 0 woken_world)); vm_compute; reflexivity.
Defined.

(** C2 as stated fails: the session is in [wait()] before the first
    publish, two chunks are published before it gets the lock back, and the
    first part it sends carries the second chunk, not the first. *)
Lemma first_frame_not_first_publish :
  run (reach_wait 0) (boot [viewer]) = Some waiting_world /\
  published waiting_world = [] /\
  sessions waiting_world !! 0 = Some (session_at 0 waiting_world) /\
  pc (session_at 0 waiting_world) = G97 /\
  run (Cli 0 :: publish jpegA ++ publish jpegB ++ wake 0 ++ send_part 0) waiting_world =
    Some raced_world /\
  published raced_world = [jpegA; jpegB] /\
  wfile (handler (session_at 0 raced_world)) =
    wfile (handler (session_at 0 waiting_world)) ++ multipart_part jpegB /\
  multipart_part jpegB <> multipart_part jpegA.
Proof.
  do 7 (split; [vm_compute; reflexivity|]). discriminate.
Qed.

(** ** The claim about a failing session *)










(** ** The claims about the bytes on the wire *)










(** ** The claims about [StreamingOutput.write] *)

Lemma startswith_spec buf p :
  startswith buf p = true <-> exists rest, buf = p ++ rest.
Proof.
  revert buf. induction p as [|b p IH]; intros buf.
  - split; [exists buf; done|]. by destruct buf.
  - destruct buf as [|c buf]; simpl.
    + split; [done|]. by intros [rest ?].
    + rewrite andb_true_iff, IH. split.
      * intros [Hb [rest ->]]. apply Byte.byte_dec_bl in Hb as ->. by exists rest.
      * intros [rest [= -> ->]]. split; [by apply Byte.byte_dec_lb|by exists rest].
Qed.

Lemma call_effect hs t0 w buf t w' ret :
  run t0 (boot hs) = Some w ->
  run (Ingest buf :: t) w = Some w' ->
  forallb (fun e => negb (is_ingest e)) t = true ->
  encoder w' = Idle ret ->
  consistent w /\ consistent w' /\
  ret = Some (length buf) /\
  published w' = published w ++ (if startswith buf SOI then [buf] else []).
Proof.
  intros Hrun0 Hrun Ht En. apply reachable_consistent in Hrun0 as C.
  change (run (Ingest buf :: t) w) with (exec (Ingest buf) w ≫= run t) in Hrun.
  destruct (exec (Ingest buf) w) as [w1|] eqn:He; [|done]. simpl in Hrun.
  pose proof (run_in_call _ _ _ _ _ (ingest_in_call _ _ _ He) Ht Hrun) as Hc.
  unfold in_call in Hc. rewrite En in Hc. destruct Hc as [-> Hp].
  split; [done|]. split; [|done].
  eapply run_consistent, Hrun. by eapply exec_consistent.
Qed.

(** C3: one call [write(buf)], from a state of the running process in which
    the encoder is outside [write], with the other threads scheduled in any
    way until the call returns.  The call can always be run to its return.
    When it has returned, the history has grown by exactly [buf] if [buf]
    starts with FF D8 and the frame slot holds [buf] unchanged; otherwise the
    history has not grown and the frame slot is as it was.  So something was
    published if and only if the first two bytes of [buf] are FF D8.  No
    step of the call raises. *)
Theorem write_publishes_iff_marker hs t0 w n buf :
  run t0 (boot hs) = Some w -> encoder w = Idle n ->
  (exists t w', run (Ingest buf :: t) w = Some w' /\
     forallb (fun e => negb (is_ingest e)) t = true /\
     encoder w' = Idle (Some (length buf))) /\
  (forall t w' ret,
     run (Ingest buf :: t) w = Some w' ->
     forallb (fun e => negb (is_ingest e)) t = true ->
     encoder w' = Idle ret ->
     published w' = published w ++ (if startswith buf SOI then [buf] else []) /\
     frame (output w') = (if startswith buf SOI then Some buf else frame (output w)) /\
     (published w' <> published w <-> exists rest, buf = xff :: xd8 :: rest)).
Proof.
  intros Hrun En. split; [by eapply write_can_return|].
  intros t w' ret Hrun' Ht En'.
  change (exists rest, buf = xff :: xd8 :: rest) with (exists rest, buf = SOI ++ rest).
  rewrite <- startswith_spec.
  destruct (call_effect _ _ _ _ _ _ _ Hrun Hrun' Ht En') as (C & C' & _ & Hp).
  split; [done|]. split.
  - rewrite (frame_is_latest w' C'), Hp, (frame_is_latest w C).
    destruct (startswith buf SOI); [by rewrite last_snoc|by rewrite app_nil_r].
  - rewrite Hp. destruct (startswith buf SOI).
    + split; [done|]. intros _ Heq.
      apply (f_equal length) in Heq. rewrite length_app in Heq. simpl in Heq. lia.
    + rewrite app_nil_r. split; [done|discriminate].
Qed.

Lemma write_publishes_iff_marker_witness :
  run (reach_wait 0) (boot [viewer]) = Some waiting_world /\
  encoder waiting_world = Idle None /\
  (exists t w', run (Ingest jpegA :: t) waiting_world = Some w' /\
     forallb (fun e => negb (is_ingest e)) t = true /\
     encoder w' = Idle (Some (length jpegA))) /\
  (forall t w' ret,
     run (Ingest jpegA :: t) waiting_world = Some w' ->
     forallb (fun e => negb (is_ingest e)) t = true ->
     encoder w' = Idle ret ->
     published w' =
       published waiting_world ++ (if startswith jpegA SOI then [jpegA] else []) /\
     frame (output w') =
       (if startswith jpegA SOI then Some jpegA else frame (output waiting_world)) /\
     (published w' <> published waiting_world <-> exists rest, jpegA = xff :: xd8 :: rest)).
Proof.
  do 2 (split; [vm_compute; reflexivity|]).
  apply (write_publishes_iff_marker [viewer] (reach_wait 0) waiting_world None jpegA);
    vm_compute; reflexivity.
Defined.

(** C7: in the running process, a call [write(buf)] can always be run to
    its return, whatever [buf] is and whoever holds the lock when it starts;
    however the other threads are scheduled meanwhile, the value returned is
    [len(buf)]; and run without interruption from a state in which the lock
    is free, [write] returns [len(buf)].  Nothing in the call raises. *)
Theorem write_returns_length hs t0 w n buf :
  run t0 (boot hs) = Some w -> encoder w = Idle n ->
  (exists t w', run (Ingest buf :: t) w = Some w' /\
     forallb (fun e => negb (is_ingest e)) t = true /\
     encoder w' = Idle (Some (length buf))) /\
  (forall t w' ret,
     run (Ingest buf :: t) w = Some w' ->
     forallb (fun e => negb (is_ingest e)) t = true ->
     encoder w' = Idle ret -> ret = Some (length buf)) /\
  (owner (lock w) = None -> exists w', write buf w = Some (w', length buf)).
Proof.
  intros Hrun En. split; [by eapply write_can_return|]. split.
  - intros t w' ret Hrun' Ht En'.
    by destruct (call_effect _ _ _ _ _ _ _ Hrun Hrun' Ht En') as (_ & _ & -> & _).
  - intros Ho. eexists. by eapply write_eq.
Qed.

Lemma write_returns_length_witness :
  run (reach_wait 0) (boot [viewer]) = Some waiting_world /\
  encoder waiting_world = Idle None /\
  (exists t w', run (Ingest [x00; x01] :: t) waiting_world = Some w' /\
     forallb (fun e => negb (is_ingest e)) t = true /\
     encoder w' = Idle (Some (length [x00; x01]))) /\
  (forall t w' ret,
     run (Ingest [x00; x01] :: t) waiting_world = Some w' ->
     forallb (fun e => negb (is_ingest e)) t = true ->
     encoder w' = Idle ret -> ret = Some (length [x00; x01])) /\
  (owner (lock waiting_world) = None ->
   exists w', write [x00; x01] waiting_world = Some (w', length [x00; x01])).
Proof.
  do 2 (split; [vm_compute; reflexivity|]).
  apply (write_returns_length [viewer] (reach_wait 0) waiting_world None [x00; x01]);
    vm_compute; reflexivity.
Defined.

(** ** The claim about the frame slot *)

(** C10: the frame slot starts as [None]; in the running process it is
    [None] exactly as long as nothing has been published; a step either
    leaves it as it is or is line 47 storing the buffer of the current call;
    and once it holds a frame it holds one in every later state, line 98
    then reads a frame, and no session is on line 99 with [frame] being
    [None], so the [continue] of line 100 is not taken. *)
Theorem frame_slot_never_reverts hs t1 w1 :
  run t1 (boot hs) = Some w1 ->
  frame StreamingOutput_init = None /\
  (frame (output w1) = None <-> published w1 = []) /\
  (forall e w2, exec e w1 = Some w2 ->
     frame (output w2) = frame (output w1) \/
     exists buf, e = Enc /\ encoder w1 = W47 buf /\ frame (output w2) = Some buf) /\
  (frame (output w1) <> None ->
   forall t2 w2, run t2 w1 = Some w2 ->
     frame (output w2) <> None /\
     forall r s, sessions w2 !! r = Some s ->
       pc s <> G98x None /\ pc s <> G99 None /\
       (pc s = G98 ->
        exists f w3 s3, exec (Cli r) w2 = Some w3 /\
          sessions w3 !! r = Some s3 /\ pc s3 = G98x (Some f))).
Proof.
  intros Hrun. apply reachable_consistent in Hrun as C.
  assert (Hnone : forall w, consistent w -> frame (output w) = None <-> published w = []).
  { intros w Cw. rewrite (frame_is_latest w Cw). apply last_None. }
  split; [done|]. split; [by apply Hnone|]. split.
  - intros e w2 He. destruct e as [buf| |r|r]; simpl in He.
    + destruct (encoder w1); try done. injection He as <-. by left.
    + unfold write_step in He.
      destruct (encoder w1) as [k|buf|buf|buf|buf|buf|buf]; try done;
        try (injection He as <-; by left).
      * destruct (acquire _ _); [|done]. injection He as <-. by left.
      * injection He as <-. right. by exists buf.
    + destruct (sessions w1 !! r) as [s|]; [|done]. simpl in He.
      apply do_GET_step_shared in He as (_ & _ & -> & _). by left.
    + destruct (sessions w1 !! r) as [s|]; [|done]. injection He as <-. by left.
  - intros Hsome t2 w2 Hrun2.
    pose proof (run_consistent _ _ _ C Hrun2) as C2.
    assert (Hpub : published w2 <> []).
    { destruct (run_published_grows _ _ _ Hrun2) as [more ->].
      intros [Hnil _]%app_eq_nil. by apply Hsome, Hnone. }
    assert (Hf2 : frame (output w2) <> None) by (by rewrite (Hnone w2 C2)).
    split; [done|]. intros r s Hr.
    pose proof (sessions_ok w2 C2 r s Hr) as Hok. unfold session_ok in Hok.
    split; [|split].
    + intros Hpc. rewrite Hpc in Hok. destruct Hok as [Heq _]. by rewrite <- Heq in Hf2.
    + intros Hpc. rewrite Hpc in Hok. by destruct Hok as (f & ? & _).
    + intros Hpc. destruct (frame (output w2)) as [f|] eqn:Hfr; [|done].
      exists f. eexists _, _. rewrite (exec_Cli _ _ _ Hr).
      unfold do_GET_step. rewrite Hpc, Hfr. split; [done|].
      split; [by eapply lookup_set_pc|done].
Qed.

Lemma frame_slot_never_reverts_witness :
  run (publish jpegA) (boot [viewer]) = Some (after (publish jpegA) (boot [viewer])) /\
  frame (output (after (publish jpegA) (boot [viewer]))) = Some jpegA /\
  forall t2 w2, run t2 (after (publish jpegA) (boot [viewer])) = Some w2 ->
    frame (output w2) <> None.
Proof.
  do 2 (split; [vm_compute; reflexivity|]).
  intros t2 w2 Hrun2.
  pose proof (frame_slot_never_reverts [viewer] (publish jpegA)
                (after (publish jpegA) (boot [viewer])) ltac:(vm_compute; reflexivity))
    as (_ & _ & _ & Hlater).
  refine (proj1 (Hlater _ t2 w2 Hrun2)). discriminate.
Defined.

(** * Further properties *)

(** ** main and create_ssl_context *)

Ltac run_main :=
  unfold main, create_ssl_context, try_finally, bind_P, invoke, assign_output,
    raise, unit_P, at_import;
  cbn [calls global_output is_logging negb andb app].

Ltac next_call env :=
  match goal with
  | |- context [raises env ?c] =>
      let E := fresh "E" in destruct (raises env c) eqn:E; cbn [negb andb app calls global_output]
  end.

(** X1: when the certificate file, or else the key file, does not exist,
    [main] raises [FileNotFoundError] naming the first of the two that is
    missing (the certificate is looked at first); logging has been set up
    but no camera, TLS or server call has been made and the global [output]
    is still [None]. *)
Theorem main_missing_tls_file env args :
  let cert_path := path_str env (cert args) in
  let key_path := path_str env (key args) in
  (path_exists env cert_path = false ->
   main env args at_import =
     (Raised_ (FileNotFoundError ("TLS certificate not found: " ++ cert_path)),
      mkProcess [basicConfig] None)) /\
  (path_exists env cert_path = true -> path_exists env key_path = false ->
   main env args at_import =
     (Raised_ (FileNotFoundError ("TLS private key not found: " ++ key_path)),
      mkProcess [basicConfig] None)).
Proof.
  intros cert_path key_path. split.
  - intros Hc. run_main. fold cert_path. by rewrite Hc.
  - intros Hc Hk. run_main. fold cert_path key_path. by rewrite Hc, Hk.
Qed.

Lemma main_missing_tls_file_witness :
  path_exists env_no_key (path_str env_no_key (cert default_args)) = true /\
  path_exists env_no_key (path_str env_no_key (key default_args)) = false /\
  main env_no_key default_args at_import =
    (Raised_ (FileNotFoundError "TLS private key not found: key.pem"),
     mkProcess [basicConfig] None).
Proof.
  split; [reflexivity|]. split; [reflexivity|].
  apply (main_missing_tls_file env_no_key default_args); reflexivity.
Defined.

(** The calls made are always an initial part of the program order. *)
Lemma main_calls_in_order env args r st :
  path_exists env (path_str env (cert args)) = true ->
  path_exists env (path_str env (key args)) = true ->
  main env args at_import = (r, st) ->
  exists rest, startup args env ++ serving args ++ shutdown = calls st ++ rest.
Proof.
  intros Hc Hk. run_main. rewrite Hc, Hk. cbn [negb].
  unfold startup, serving, shutdown.
  repeat next_call env; intros [= <- <-]; cbn [calls app];
    eexists; reflexivity.
Qed.

Ltac main_cases env :=
  run_main;
  destruct (path_exists env _); cbn [negb];
  [destruct (path_exists env _); cbn [negb]|];
  unfold startup, serving, shutdown;
  repeat next_call env.

(** X2: if [main] got as far as creating the HTTP server, the global
    [output] had been assigned a fresh [StreamingOutput] and
    [start_recording] had been called with it; a request for the stream
    handled by that server therefore enters the streaming loop, it does not
    get the 503 of line 84. *)
Theorem output_assigned_before_server env args r st :
  main env args at_import = (r, st) ->
  In (HTTPServer_new (host args) (port args)) (calls st) ->
  global_output st = Some StreamingOutput_init /\
  In start_recording (calls st) /\
  forall ver date page,
    fst (do_GET (global_output st) (new_handler "/stream.mjpg" ver date page)) =
      Done Streams.
Proof.
  main_cases env; intros [= <- <-] Hin;
    try (exfalso; simpl in Hin; solve [intuition discriminate]);
    (split; [reflexivity|]; split; [simpl; tauto|]);
    intros ver date page; cbn [global_output]; by rewrite do_GET_stream_active.
Qed.

Lemma output_assigned_before_server_witness :
  In (HTTPServer_new (host default_args) (port default_args))
     (calls (snd (main env_all_well default_args at_import))) /\
  global_output (snd (main env_all_well default_args at_import)) =
    Some StreamingOutput_init /\
  In start_recording (calls (snd (main env_all_well default_args at_import))) /\
  forall ver date page,
    fst (do_GET (global_output (snd (main env_all_well default_args at_import)))
                (new_handler "/stream.mjpg" ver date page)) = Done Streams.
Proof.
  assert (Hin : In (HTTPServer_new (host default_args) (port default_args))
                   (calls (snd (main env_all_well default_args at_import))))
    by (vm_compute; tauto).
  split; [exact Hin|].
  exact (output_assigned_before_server env_all_well default_args _ _
           (surjective_pairing _) Hin).
Defined.

(** X3: once [serve_forever] has been entered, the [finally] block runs
    however it ends: the shutdown is logged and [stop_recording] is called.
    If the three cleanup calls return, all of them were made in order and
    [main] returns normally, or re-raises what [serve_forever] raised.  If
    [stop_recording] itself raises, that exception is the one [main] ends
    with, and neither [close] nor [server_close] is called. *)
Theorem cleanup_after_serving env args r st :
  main env args at_import = (r, st) ->
  In serve_forever (calls st) ->
  (exists rest,
     calls st = startup args env ++ serving args ++
                [info_shutting_down; stop_recording] ++ rest) /\
  (raises env stop_recording = false -> raises env close = false ->
   raises env server_close = false ->
   calls st = startup args env ++ serving args ++ shutdown /\
   r = if raises env serve_forever
       then Raised_ (LibraryError serve_forever) else Returned_ tt) /\
  (raises env stop_recording = true ->
   calls st = startup args env ++ serving args ++ [info_shutting_down; stop_recording] /\
   r = Raised_ (LibraryError stop_recording)).
Proof.
  main_cases env; intros [= <- <-] Hin;
    try (exfalso; simpl in Hin; solve [intuition discriminate]);
    (split; [eexists; reflexivity|]);
    split; intros; try discriminate; split; reflexivity.
Qed.

Lemma cleanup_after_serving_witness :
  In serve_forever (calls (snd (main env_interrupted default_args at_import))) /\
  raises env_interrupted stop_recording = false /\
  raises env_interrupted close = false /\
  raises env_interrupted server_close = false /\
  calls (snd (main env_interrupted default_args at_import)) =
    startup default_args env_interrupted ++ serving default_args ++ shutdown /\
  fst (main env_interrupted default_args at_import) =
    Raised_ (LibraryError serve_forever).
Proof.
  assert (Hin : In serve_forever (calls (snd (main env_interrupted default_args at_import))))
    by (vm_compute; tauto).
  split; [exact Hin|]. do 3 (split; [reflexivity|]).
  exact (proj1 (proj2 (cleanup_after_serving env_interrupted default_args _ _
                         (surjective_pairing _) Hin))
           eq_refl eq_refl eq_refl).
Defined.



(** ** The frame slot and the lock *)

Lemma exec_all_marked e w w' : all_marked w -> exec e w = Some w' -> all_marked w'.
Proof.
  intros [Hp He] Hx. destruct e as [buf| |r|r]; simpl in Hx.
  - destruct (encoder w); try done. injection Hx as <-. by split.
  - unfold write_step in Hx.
    destruct (encoder w) as [n|buf|buf|buf|buf|buf|buf]; try done.
    + injection Hx as <-. split; [done|]. simpl.
      by destruct (startswith buf SOI) eqn:Hs.
    + destruct (acquire _ _); [|done]. injection Hx as <-. by split.
    + injection Hx as <-. split; [|done]. simpl.
      apply Forall_app. split; [done|]. by constructor.
    + injection Hx as <-. by split.
    + injection Hx as <-. by split.
    + injection Hx as <-. by split.
  - destruct (sessions w !! r) as [s|]; [|done]. simpl in Hx.
    apply do_GET_step_shared in Hx as (Hpub & Henc & _).
    unfold all_marked. by rewrite Hpub, Henc.
  - destruct (sessions w !! r) as [s|]; [|done]. injection Hx as <-. by split.
Qed.

Lemma reachable_all_marked hs t w : run t (boot hs) = Some w -> all_marked w.
Proof.
  assert (H0 : all_marked (boot hs)) by (split; simpl; [constructor|done]).
  revert H0. generalize (boot hs). induction t as [|e t IH]; intros w0 H0; simpl.
  - by intros [= <-].
  - destruct (exec e w0) as [w1|] eqn:He; [|done]. simpl.
    apply IH. by eapply exec_all_marked.
Qed.

(** X5: in the running process every chunk that was ever stored in the
    frame slot begins with the bytes FF D8; so does the chunk the slot holds
    now, and so does any frame a session is about to test or is sending. *)
Theorem only_marked_chunks_are_served hs t w :
  run t (boot hs) = Some w ->
  Forall (fun f => exists rest, f = xff :: xd8 :: rest) (published w) /\
  (forall f, frame (output w) = Some f -> exists rest, f = xff :: xd8 :: rest) /\
  (forall r s f, sessions w !! r = Some s ->
     (pc s = G98x (Some f) \/ pc s = G99 (Some f) \/ exists l, pc s = GPart l f) ->
     exists rest, f = xff :: xd8 :: rest).
Proof.
  intros Hrun. pose proof (reachable_consistent _ _ _ Hrun) as C.
  destruct (reachable_all_marked _ _ _ Hrun) as [Hm _].
  assert (Hall : Forall (fun f => exists rest, f = xff :: xd8 :: rest) (published w)).
  { eapply Forall_impl; [exact Hm|]. intros f Hf.
    by apply (startswith_spec f SOI) in Hf. }
  assert (Hin : forall f, f ∈ published w -> exists rest, f = xff :: xd8 :: rest).
  { intros f. by apply (proj1 (Forall_forall _ _) Hall). }
  split; [done|]. split.
  - intros f Hf. apply Hin. rewrite (frame_is_latest w C) in Hf.
    apply last_Some in Hf as [l' ->]. apply elem_of_app. right.
    by apply list_elem_of_singleton.
  - intros r s f Hr Hpc. apply Hin.
    pose proof (sessions_ok w C r s Hr) as Hok. unfold session_ok in Hok.
    destruct Hpc as [Hpc|[Hpc|[l Hpc]]]; rewrite Hpc in Hok.
    + destruct Hok as [Hf _]. rewrite (frame_is_latest w C) in Hf. symmetry in Hf.
      apply last_Some in Hf as [l' ->]. apply elem_of_app. right.
      by apply list_elem_of_singleton.
    + destruct Hok as (f' & [= <-] & Hin'). done.
    + done.
Qed.

Lemma only_marked_chunks_are_served_witness :
  run (Cli 0 :: publish jpegA ++ wake 0) waiting_world = Some woken_world /\
  Forall (fun f => exists rest, f = xff :: xd8 :: rest) (published woken_world).
Proof.
  split; [vm_compute; reflexivity|].
  refine (proj1 (only_marked_chunks_are_served [viewer]
            (reach_wait 0 ++ Cli 0 :: publish jpegA ++ wake 0) woken_world _)).
  vm_compute. reflexivity.
Defined.

(** X6: in the running process the frame slot always holds the chunk
    published last ([None] if there was none): each publish overwrites the
    slot, and nothing else writes it. *)
Theorem slot_holds_latest_publish hs t w :
  run t (boot hs) = Some w -> frame (output w) = last (published w).
Proof. intros Hrun. exact (frame_is_latest w (reachable_consistent _ _ _ Hrun)). Qed.

Lemma slot_holds_latest_publish_witness :
  run (Cli 0 :: publish jpegA ++ publish jpegB ++ wake 0 ++ send_part 0) waiting_world =
    Some raced_world /\
  frame (output raced_world) = last (published raced_world) /\
  last (published raced_world) = Some jpegB.
Proof.
  split; [vm_compute; reflexivity|]. split; [|vm_compute; reflexivity].
  apply (slot_holds_latest_publish [viewer]
           (reach_wait 0 ++ Cli 0 :: publish jpegA ++ publish jpegB ++ wake 0 ++ send_part 0)).
  vm_compute. reflexivity.
Defined.

(** X7: at any moment at most one thread is inside a [with] block on the
    condition: the encoder on lines 47-48 and a session on lines 97-98 are
    never there together, nor are two sessions; and the thread that is
    there is the one recorded as owner of the lock. *)
Theorem with_blocks_exclude hs t w t1 t2 :
  run t (boot hs) = Some w ->
  holds w t1 = true -> holds w t2 = true ->
  t1 = t2 /\ owner (lock w) = Some t1.
Proof.
  intros Hrun H1 H2. pose proof (reachable_consistent _ _ _ Hrun) as C.
  apply (lock_discipline w C) in H1 as H1'. apply (lock_discipline w C) in H2.
  split; [congruence|done].
Qed.

Lemma with_blocks_exclude_witness :
  run (reach_wait 0) (boot [viewer]) = Some waiting_world /\
  holds waiting_world (Client 0) = true /\
  owner (lock waiting_world) = Some (Client 0).
Proof.
  split; [vm_compute; reflexivity|]. split; [vm_compute; reflexivity|].
  refine (proj2 (with_blocks_exclude [viewer] (reach_wait 0) waiting_world
                   (Client 0) (Client 0) _ _ _)); vm_compute; reflexivity.
Defined.

Lemma handlers_set_pc r s p w :
  sessions w !! r = Some s ->
  handler <$> <[r := mkSession (handler s) p]> (sessions w) = handler <$> sessions w.
Proof.
  intros Hr. rewrite list_fmap_insert. apply list_insert_id.
  by rewrite list_lookup_fmap, Hr.
Qed.

(** X8: whoever holds the lock lets go of it within three of its own
    lines, and none of those lines touches a handler or a socket: the
    encoder is on lines 47-48, a session on lines 97-98, and what every
    client has been sent is the same before and after. *)
Theorem lock_hold_is_short hs t0 w th :
  run t0 (boot hs) = Some w -> owner (lock w) = Some th ->
  exists t w',
    run t w = Some w' /\ length t <= 3 /\ forallb (by_thread th) t = true /\
    owner (lock w') = None /\
    handler <$> sessions w' = handler <$> sessions w.
Proof.
  intros Hrun Ho. pose proof (reachable_consistent _ _ _ Hrun) as C.
  apply (lock_discipline w C) in Ho. destruct th as [|r]; simpl in Ho.
  - destruct w as [[fr [ow ws]] en ss pub]. simpl in Ho.
    destruct en as [n|buf|buf|buf|buf|buf|buf]; try done.
    + exists [Enc; Enc; Enc]. eexists. split; [reflexivity|]. simpl.
      split; [lia|done].
    + exists [Enc; Enc]. eexists. split; [reflexivity|]. simpl.
      split; [lia|done].
    + exists [Enc]. eexists. split; [reflexivity|]. simpl.
      split; [lia|done].
  - destruct (sessions w !! r) as [s|] eqn:Hr; [|done].
    assert (Hlt : r < length (sessions w)) by (by apply lookup_lt_Some in Hr).
    destruct s as [h [| | | | |fo|fo|l f| |]]; try done.
    + exists [Cli r]. eexists. split; [simpl; rewrite Hr; reflexivity|].
      simpl. rewrite Nat.eqb_refl. split; [lia|]. split; [done|]. split; [done|].
      by rewrite (handlers_set_pc r _ _ w Hr).
    + exists [Cli r; Cli r]. eexists. split.
      { simpl. rewrite Hr. simpl. rewrite list_lookup_insert_eq by done. reflexivity. }
      simpl. rewrite Nat.eqb_refl. split; [lia|]. split; [done|]. split; [done|].
      rewrite list_insert_insert_eq.
      by rewrite (handlers_set_pc r _ _ w Hr).
    + exists [Cli r]. eexists. split; [simpl; rewrite Hr; reflexivity|].
      simpl. rewrite Nat.eqb_refl. split; [lia|]. split; [done|]. split; [done|].
      by rewrite (handlers_set_pc r _ _ w Hr).
Qed.

Lemma lock_hold_is_short_witness :
  run (reach_wait 0) (boot [viewer]) = Some waiting_world /\
  owner (lock waiting_world) = Some (Client 0) /\
  exists t w',
    run t waiting_world = Some w' /\ length t <= 3 /\
    forallb (by_thread (Client 0)) t = true /\
    owner (lock w') = None /\
    handler <$> sessions w' = handler <$> sessions waiting_world.
Proof.
  split; [vm_compute; reflexivity|]. split; [vm_compute; reflexivity|].
  apply (lock_hold_is_short [viewer] (reach_wait 0) waiting_world (Client 0));
    vm_compute; reflexivity.
Defined.

(** X9: sessions that are blocked in [wait()], or sending to a slow client,
    or not yet in the loop, do not delay the encoder: when no session is on
    lines 97-98, a call [write(buf)] runs to its return on the encoder's own
    lines, whatever the number and state of the sessions, and leaves every
    session as it was. *)
Theorem encoder_not_delayed_by_clients hs t0 w n buf :
  run t0 (boot hs) = Some w -> encoder w = Idle n ->
  (forall r s, sessions w !! r = Some s -> session_holds (pc s) = false) ->
  exists w', write buf w = Some (w', length buf) /\ sessions w' = sessions w /\
    encoder w' = Idle (Some (length buf)).
Proof.
  intros Hrun En Hnone. pose proof (reachable_consistent _ _ _ Hrun) as C.
  assert (Ho : owner (lock w) = None).
  { destruct (owner (lock w)) as [th|] eqn:Ho; [|done].
    apply (lock_discipline w C) in Ho. destruct th as [|r]; simpl in Ho.
    - by rewrite En in Ho.
    - destruct (sessions w !! r) as [s|] eqn:Hr; [|done].
      by rewrite (Hnone r s Hr) in Ho. }
  eexists. split; [by eapply write_eq|]. by destruct (startswith buf SOI).
Qed.

Lemma encoder_not_delayed_by_clients_witness :
  run (Cli 0 :: publish jpegA ++ wake 0 ++ [Cli 0; Cli 0]) waiting_world =
    Some sending_world /\
  encoder sending_world = Idle (Some 3) /\
  (forall r s, sessions sending_world !! r = Some s -> session_holds (pc s) = false) /\
  exists w', write jpegB sending_world = Some (w', length jpegB) /\
    sessions w' = sessions sending_world /\
    encoder w' = Idle (Some (length jpegB)).
Proof.
  assert (Hnone : forall r s, sessions sending_world !! r = Some s ->
                              session_holds (pc s) = false).
  { intros [|r] s; vm_compute; [by intros [= <-]|done]. }
  split; [vm_compute; reflexivity|]. split; [vm_compute; reflexivity|].
  split; [exact Hnone|].
  apply (encoder_not_delayed_by_clients [viewer]
           (reach_wait 0 ++ Cli 0 :: publish jpegA ++ wake 0 ++ [Cli 0; Cli 0])
           sending_world (Some 3) jpegB);
    [vm_compute; reflexivity|vm_compute; reflexivity|exact Hnone].
Defined.

(** ** Waiting, and chunks that are dropped or overwritten *)

(** X10: [wait()] is called on every turn of the loop, before the slot is
    read, without a timeout.  A session that calls it therefore stays
    blocked, sends nothing and cannot take a step for as long as nothing new
    is published: a frame already in the slot is not sent to it, and its
    peer hanging up does not wake it. *)
Theorem wait_blocks_until_next_publish hs t0 w0 r s0 t w :
  run t0 (boot hs) = Some w0 ->
  sessions w0 !! r = Some s0 -> pc s0 = G97 ->
  run (Cli r :: t) w0 = Some w ->
  published w = published w0 ->
  exec (Cli r) w = None /\
  exists s, sessions w !! r = Some s /\ pc s = G97w /\
    wfile (handler s) = wfile (handler s0).
Proof.
  intros Hrun0 Hr0 Hpc0 Hrun Hpub.
  destruct (first_delivery_helper _ _ _ _ _ _ _ Hrun0 Hr0 Hpc0 Hrun)
    as [_ (ext & Hp & Hk)].
  rewrite Hpub in Hp. rewrite <- (app_nil_r (published w0)) in Hp at 1.
  apply app_inv_head in Hp. destruct (Hk (eq_sym Hp)) as (_ & s & Hr & Hpc & Hw & Hout).
  split; [|by exists s].
  simpl. rewrite Hr. simpl. unfold do_GET_step. rewrite Hpc.
  unfold wait_return. by rewrite Hw.
Qed.

Lemma wait_blocks_until_next_publish_witness :
  run (publish jpegA ++ reach_wait 0) (boot [viewer]) = Some late_viewer_world /\
  frame (output late_viewer_world) = Some jpegA /\
  sessions late_viewer_world !! 0 = Some (session_at 0 late_viewer_world) /\
  pc (session_at 0 late_viewer_world) = G97 /\
  run [Cli 0; Disconnect 0; Ingest [x00]; Enc; Enc] late_viewer_world =
    Some late_viewer_waiting /\
  published late_viewer_waiting = published late_viewer_world /\
  exec (Cli 0) late_viewer_waiting = None /\
  exists s, sessions late_viewer_waiting !! 0 = Some s /\ pc s = G97w /\
    wfile (handler s) = wfile (handler (session_at 0 late_viewer_world)).
Proof.
  do 6 (split; [vm_compute; reflexivity|]).
  apply (wait_blocks_until_next_publish [viewer] (publish jpegA ++ reach_wait 0)
           late_viewer_world 0 (session_at 0 late_viewer_world)
           [Disconnect 0; Ingest [x00]; Enc; Enc]); vm_compute; reflexivity.
Defined.

Lemma short_chunk_unmarked buf : length buf < 2 -> startswith buf SOI = false.
Proof.
  destruct buf as [|a [|b buf]]; simpl; intros Hlen; [done| |lia].
  apply andb_false_r.
Qed.

(** X11: a chunk of fewer than two bytes, the empty chunk included, is
    never published: however the call is interleaved, [write] returns the
    length of the chunk and leaves the history and the frame slot alone. *)
Theorem short_chunk_is_dropped hs t0 w n buf t w' ret :
  length buf < 2 ->
  run t0 (boot hs) = Some w -> encoder w = Idle n ->
  run (Ingest buf :: t) w = Some w' ->
  forallb (fun e => negb (is_ingest e)) t = true ->
  encoder w' = Idle ret ->
  ret = Some (length buf) /\ published w' = published w /\
  frame (output w') = frame (output w).
Proof.
  intros Hlen Hrun En Hrun' Ht En'.
  destruct (call_effect _ _ _ _ _ _ _ Hrun Hrun' Ht En') as (C & C' & Hret & Hp).
  rewrite (short_chunk_unmarked buf Hlen), app_nil_r in Hp.
  split; [done|]. split; [done|].
  by rewrite (frame_is_latest w' C'), Hp, (frame_is_latest w C).
Qed.

Lemma short_chunk_is_dropped_witness :
  length (@nil byte) < 2 /\
  run (reach_wait 0) (boot [viewer]) = Some waiting_world /\
  encoder waiting_world = Idle None /\
  run (Ingest [] :: [Enc; Cli 0; Enc]) waiting_world =
    Some (after (Ingest [] :: [Enc; Cli 0; Enc]) waiting_world) /\
  encoder (after (Ingest [] :: [Enc; Cli 0; Enc]) waiting_world) = Idle (Some 0) /\
  published (after (Ingest [] :: [Enc; Cli 0; Enc]) waiting_world) =
    published waiting_world /\
  frame (output (after (Ingest [] :: [Enc; Cli 0; Enc]) waiting_world)) =
    frame (output waiting_world).
Proof.
  split; [simpl; lia|]. do 4 (split; [vm_compute; reflexivity|]).
  refine (proj2 (short_chunk_is_dropped [viewer] (reach_wait 0) waiting_world None []
                   [Enc; Cli 0; Enc] _ (Some 0) _ _ _ _ _ _));
    try (vm_compute; reflexivity). simpl; lia.
Defined.

(** X12: two calls of [write] one after the other, uninterrupted and from a
    state with the lock free.  Both return the length of their chunk; the
    slot ends up holding the second chunk if it is marked, else the first if
    that one is marked, else what it held before; the history gains the
    marked ones in order; no session is changed and no thread is left in the
    queue of waiters by a publish. *)
Theorem later_write_wins n w b1 b2 :
  encoder w = Idle n -> owner (lock w) = None ->
  exists w1 w2,
    write b1 w = Some (w1, length b1) /\ write b2 w1 = Some (w2, length b2) /\
    frame (output w2) =
      (if startswith b2 SOI then Some b2
       else if startswith b1 SOI then Some b1 else frame (output w)) /\
    published w2 =
      published w ++ (if startswith b1 SOI then [b1] else []) ++
                     (if startswith b2 SOI then [b2] else []) /\
    sessions w2 = sessions w /\
    (startswith b1 SOI || startswith b2 SOI = true -> waiters (lock w2) = []).
Proof.
  intros En Ho. pose proof (write_eq b1 n w En Ho) as W1.
  destruct (startswith b1 SOI) eqn:H1.
  - eexists _, _. split; [exact W1|].
    split; [by eapply write_eq|].
    destruct (startswith b2 SOI) eqn:H2; simpl; rewrite <- ?app_assoc; by repeat split.
  - eexists _, _. split; [exact W1|].
    split; [by eapply write_eq|].
    destruct (startswith b2 SOI) eqn:H2; simpl; rewrite ?app_nil_r; by repeat split.
Qed.

Lemma later_write_wins_witness :
  encoder (boot [viewer]) = Idle None /\ owner (lock (boot [viewer])) = None /\
  exists w1 w2,
    write jpegA (boot [viewer]) = Some (w1, length jpegA) /\
    write [x00] w1 = Some (w2, length [x00]) /\
    frame (output w2) =
      (if startswith [x00] SOI then Some [x00]
       else if startswith jpegA SOI then Some jpegA else frame (output (boot [viewer]))) /\
    published w2 =
      published (boot [viewer]) ++ (if startswith jpegA SOI then [jpegA] else []) ++
                                   (if startswith [x00] SOI then [[x00]] else []) /\
    sessions w2 = sessions (boot [viewer]) /\
    (startswith jpegA SOI || startswith [x00] SOI = true -> waiters (lock w2) = []).
Proof.
  split; [reflexivity|]. split; [reflexivity|].
  apply (later_write_wins None (boot [viewer]) jpegA [x00]); reflexivity.
Defined.

(** ** Connections that have been dropped *)








(** ** One request at a time *)





(** ** What a client has been sent *)
















